(** * The deuteron N=2 VQE example of qcor (examples/hybrid/deuteron_h2_vqe.cpp)

    A shallow embedding of the example program: its three quantum kernels,
    the Hamiltonian it builds, and its [main] function, written as a finite
    interaction tree over the calls it makes into the qcor hybrid library.
    C++ [double] is Rocq's primitive binary64 [float]; [std::vector<double>]
    is [list float]. *)

From Stdlib Require Import List String ZArith Bool Arith Lia.
From Stdlib Require Import Floats.
From ExtLib Require Import Structures.Monad.
Import ListNotations.
Import MonadNotation.

Set Warnings "-inexact-float".

Local Open Scope string_scope.
Local Open Scope list_scope.
Local Open Scope monad_scope.

(** ** Observables

    [X(0)], [Y(1)], [Z(0)] and the overloaded [*], [+], [-] of the
    observable API build an operator expression; a [double] operand is an
    [Const]. The tree below is the C++ parse of the expression, with the
    usual precedence and left associativity. *)

Module Obs.

Inductive Pauli : Type := PX | PY | PZ.

Inductive Operator : Type :=
| Const (c : float)
| X (i : nat)
| Y (i : nat)
| Z (i : nat)
| Mul (a b : Operator)
| Add (a b : Operator)
| Sub (a b : Operator).

(** The qubit indices an expression mentions. *)
Fixpoint qubits (o : Operator) : list nat :=
  match o with
  | Const _ => []
  | X i | Y i | Z i => [i]
  | Mul a b | Add a b | Sub a b => qubits a ++ qubits b
  end.

(** A term of a weighted sum: a coefficient and a word of one-qubit
    Pauli operators, in the order written. *)
Definition Term : Type := float * list (Pauli * nat).

Definition scale (c : float) (t : Term) : Term := ((c * fst t)%float, snd t).
Definition mul_term (s t : Term) : Term := ((fst s * fst t)%float, snd s ++ snd t).

(** Modelled from the spec: the operator algebra behind [X], [Y], [Z] and
    the overloaded arithmetic is not part of the example; the glossary
    calls a Hamiltonian a weighted sum of quantum-operator terms.
    [expand] reads an expression as that sum by distributivity alone:
    a sum concatenates, a difference negates the coefficients of its
    right operand, a product multiplies term by term. *)
Fixpoint expand (o : Operator) : list Term :=
  match o with
  | Const c => [(c, [])]
  | X i => [(1%float, [(PX, i)])]
  | Y i => [(1%float, [(PY, i)])]
  | Z i => [(1%float, [(PZ, i)])]
  | Mul a b =>
      flat_map (fun s => map (mul_term s) (expand b)) (expand a)
  | Add a b => expand a ++ expand b
  | Sub a b => expand a ++ map (scale (-1)%float) (expand b)
  end.

(** The qubit indices of a weighted sum. *)
Definition support (ts : list Term) : list nat :=
  flat_map (fun t => map snd (snd t)) ts.

End Obs.

Declare Scope obs_scope.
Delimit Scope obs_scope with obs.
Bind Scope obs_scope with Obs.Operator.
Coercion Obs.Const : float >-> Obs.Operator.
Infix "*" := Obs.Mul : obs_scope.
Infix "+" := Obs.Add : obs_scope.
Infix "-" := Obs.Sub : obs_scope.

(** ** Qubit registers and kernel statements *)

(** A [qreg] is a named register; [q[i]] is the pair of the register's
    name and the index. *)
Record qreg : Type := { qreg_name : string; qreg_size : nat }.

Definition qubit : Type := (string * nat)%type.

Definition qreg_at (q : qreg) (i : nat) : qubit := (qreg_name q, i).

(** The statements of the two kernel languages the example uses. *)
Module xasm.
Inductive stmt : Type :=
| X (q : qubit)
| Ry (q : qubit) (theta : float)
| CX (ctrl tgt : qubit)
| exp_i_theta (q : qreg) (theta : float) (op : Obs.Operator).
End xasm.

Module openqasm.
Inductive stmt : Type :=
| x (q : qubit)
| cx (ctrl tgt : qubit).
End openqasm.

(** A kernel body is a sequence of statements, each in the language that
    the preceding [using qcor::...] selected. *)
Inductive KernelStmt : Type :=
| Xasm (s : xasm.stmt)
| OpenQasm (s : openqasm.stmt).

(** The circuit a kernel is lowered to. *)
Inductive Instruction : Type :=
| IX (q : qubit)
| IRy (q : qubit) (theta : float)
| ICNOT (ctrl tgt : qubit)
| IExpITheta (q : qreg) (theta : float) (op : Obs.Operator).

Definition Circuit : Type := list Instruction.

(** Modelled from the spec: the domain-specific compiler that lowers the
    annotated kernels to circuits is not part of the example. Each
    statement becomes the gate it names, with its operands in the order
    written: the first operand of [CX] and of [cx] is the control. *)
Definition lower (s : KernelStmt) : Instruction :=
  match s with
  | Xasm (xasm.X q) => IX q
  | Xasm (xasm.Ry q theta) => IRy q theta
  | Xasm (xasm.CX c t) => ICNOT c t
  | Xasm (xasm.exp_i_theta q theta op) => IExpITheta q theta op
  | OpenQasm (openqasm.x q) => IX q
  | OpenQasm (openqasm.cx c t) => ICNOT c t
  end.

Definition compile (body : list KernelStmt) : Circuit := map lower body.

(** ** The three kernels *)

(** [std::vector::operator[]]: no bounds check; [None] stands for the
    out-of-range read. *)
Definition vector_at {A : Type} (v : list A) (i : nat) : option A :=
  nth_error v i.

Definition ansatz (q : qreg) (x : float) : list KernelStmt :=
  [ Xasm (xasm.X (qreg_at q 0));
    Xasm (xasm.Ry (qreg_at q 1) x);
    Xasm (xasm.CX (qreg_at q 1) (qreg_at q 0)) ].

Definition ansatz_vec (q : qreg) (x : list float) : option (list KernelStmt) :=
  let ansatz_exponent := (Obs.X 0 * Obs.Y 1 - Obs.Y 0 * Obs.X 1)%obs in
  match vector_at x 0 with
  | Some x0 =>
      Some [ Xasm (xasm.X (qreg_at q 0));
             Xasm (xasm.exp_i_theta q x0 ansatz_exponent) ]
  | None => None
  end.

Definition xasm_open_qasm_mixed_ansatz (q : qreg) (xx : float)
  : list KernelStmt :=
  [ OpenQasm (openqasm.x (qreg_at q 0));
    Xasm (xasm.Ry (qreg_at q 1) xx);
    OpenQasm (openqasm.cx (qreg_at q 1) (qreg_at q 0)) ].

(** ** The Hamiltonian of [main] *)

Definition H : Obs.Operator :=
  (5.907%float - 2.1433%float * Obs.X 0 * Obs.X 1 -
   2.1433%float * Obs.Y 0 * Obs.Y 1 + 0.21829%float * Obs.Z 0 -
   6.125%float * Obs.Z 1)%obs.

(** ** The library interface used by [main] *)

(** The values of a [HeterogeneousMap] initialiser that the example writes:
    string literals and an [int]. *)
Inductive OptionValue : Type :=
| OptString (s : string)
| OptInt (n : Z).

Definition HeterogeneousMap : Type := list (string * OptionValue).

(** A kernel functor as handed to the [VQE] constructor: [ansatz] and the
    mixed kernel take a [double], [ansatz_vec] a vector. *)
Inductive Kernel : Type :=
| KernelDouble (k : qreg -> float -> list KernelStmt)
| KernelVector (k : qreg -> list float -> option (list KernelStmt)).

(** The initial parameters given to [execute]. *)
Inductive Args : Type :=
| ArgDouble (x : float)
| ArgVector (v : list float).

(** Objects that live on the library's side are referred to by handles. *)
Record VQE : Type := { vqe_id : nat }.
Record Optimizer : Type := { optimizer_id : nat }.
Record Handle : Type := { handle_id : nat }.

(** The calls into the library, indexed by the type of their result:
    the calls that [main] writes, and [execute_async] and [sync], which
    stand for the asynchronous interface that a comment of [main] names. *)
Inductive qcorE : Type -> Type :=
| createOptimizer (name : string) (options : HeterogeneousMap)
  : qcorE Optimizer
| VQE_new (kernel : Kernel) (observable : Obs.Operator)
          (options : HeterogeneousMap)
  : qcorE VQE
| execute (self : VQE) (optimizer : option Optimizer) (initial : Args)
  : qcorE (float * list float)
| execute_async (self : VQE) (optimizer : option Optimizer) (initial : Args)
  : qcorE Handle
| sync (self : VQE) (h : Handle)
  : qcorE (float * list float)
| get_unique_parameters (self : VQE)
  : qcorE (list (list float))
| get_unique_energies (self : VQE)
  : qcorE (list (float * list float)).

(** What a statement of [main] makes visible besides library calls: a
    [std::cout] statement with the items streamed into it, and the
    evaluation of a [qcor_expect] condition. *)
Inductive OutItem : Type :=
| OutStr (s : string)
| OutDouble (d : float)
| OutEndl.

Inductive Observation : Type :=
| Cout (items : list OutItem)
| Expect (cond : bool).

(** ** Programs

    A program is a finite tree: it returns, calls the library and goes on
    with the result, emits an observation, is aborted, or reads a vector
    out of range. *)
Inductive Prog (A : Type) : Type :=
| Ret (a : A)
| Call {R : Type} (c : qcorE R) (k : R -> Prog A)
| Emit (o : Observation) (k : Prog A)
| Halt
| OutOfRange.

Arguments Ret {A} a.
Arguments Call {A R} c k.
Arguments Emit {A} o k.
Arguments Halt {A}.
Arguments OutOfRange {A}.

Fixpoint Prog_bind {A B : Type} (p : Prog A) (f : A -> Prog B) : Prog B :=
  match p with
  | Ret a => f a
  | Call c k => Call c (fun r => Prog_bind (k r) f)
  | Emit o k => Emit o (Prog_bind k f)
  | Halt => Halt
  | OutOfRange => OutOfRange
  end.

#[export] Instance Monad_Prog : Monad Prog :=
  {| ret := @Ret; bind := @Prog_bind |}.

Definition call {R : Type} (c : qcorE R) : Prog R := Call c Ret.

Definition cout (items : list OutItem) : Prog unit := Emit (Cout items) (Ret tt).

(** [v[i]] inside [main]. *)
Definition subscript {A : Type} (v : list A) (i : nat) : Prog A :=
  match vector_at v i with
  | Some a => Ret a
  | None => OutOfRange
  end.

(** Modelled from the spec: the macro [qcor_expect] is not part of the
    example. It is a runtime check that aborts the process if its
    condition is false; the evaluation of the condition is recorded. *)
Definition qcor_expect (cond : bool) : Prog unit :=
  Emit (Expect cond) (if cond then Ret tt else Halt).

(** A range-based [for] over a vector. *)
Fixpoint for_each {A : Type} (l : list A) (body : A -> Prog unit) : Prog unit :=
  match l with
  | [] => Ret tt
  | a :: l' => body a ;; for_each l' body
  end.

(** ** [main]

    A statement of [std::cout] is one [cout] with the items streamed into
    it. The vector read of a statement is taken before the statement; the
    source streams the items to the left of the read first, which shows
    only in a run whose read is out of range. *)

(** The last loop of [main], over the result of [get_unique_energies]. *)
Definition print_energies (all_energies_and_params : list (float * list float))
  : Prog unit :=
  for_each all_energies_and_params (fun energy_param =>
    let energy := fst energy_param in
    let pset := snd energy_param in
    cout [OutStr "E: Pvec = "; OutDouble energy; OutStr ": [ "] ;;
    for_each pset (fun p => cout [OutDouble p; OutStr " "]) ;;
    cout [OutStr "]"; OutEndl]).

(** The string ["\n"]. *)
Definition nl : string := String (Ascii.ascii_of_nat 10) "".

Definition main : Prog unit :=
  (* VQE vqe(ansatz, H); *)
  vqe <- call (VQE_new (KernelDouble ansatz) H []) ;;
  '(energy, params) <- call (execute vqe None (ArgDouble 0.0%float)) ;;
  p0 <- subscript params 0 ;;
  cout [OutStr "<H>("; OutDouble p0; OutStr ") = "; OutDouble energy;
        OutStr nl] ;;
  qcor_expect (abs (energy + 1.74886) <? 0.1)%float ;;
  (* VQE vqe_vec(ansatz_vec, H); *)
  vqe_vec <- call (VQE_new (KernelVector ansatz_vec) H []) ;;
  '(energy_vec, params_vec) <-
     call (execute vqe_vec None (ArgVector [0.0%float])) ;;
  p0 <- subscript params_vec 0 ;;
  cout [OutStr "<H>("; OutDouble p0; OutStr ") = "; OutDouble energy_vec;
        OutStr nl] ;;
  qcor_expect (abs (energy_vec + 1.74886) <? 0.1)%float ;;
  (* the mixed language kernel with a custom optimizer *)
  optimizer <- call (createOptimizer "nlopt"
                 [("nlopt-optimizer", OptString "l-bfgs");
                  ("nlopt-maxeval", OptInt 20)]) ;;
  vqe_openqasm <- call (VQE_new (KernelDouble xasm_open_qasm_mixed_ansatz) H
                          [("gradient-strategy", OptString "central")]) ;;
  '(energy_oq, params_oq) <-
     call (execute vqe_openqasm (Some optimizer) (ArgDouble 0.55%float)) ;;
  p0 <- subscript params_oq 0 ;;
  cout [OutStr "<H>("; OutDouble p0; OutStr ") = "; OutDouble energy_oq;
        OutStr nl] ;;
  (* line 79 of the source tests energy_vec here, not energy_oq *)
  qcor_expect (abs (energy_vec + 1.74886) <? 0.1)%float ;;
  all_params <- call (get_unique_parameters vqe_openqasm) ;;
  all_energies_and_params <- call (get_unique_energies vqe_openqasm) ;;
  cout [OutStr ("All Energies and Parameters:" ++ nl)] ;;
  print_energies all_energies_and_params.

(** ** Running a program against a library *)

(** A library answers each call from its state, or throws ([None]). *)
Record Library : Type := {
  lib_state : Type;
  lib_call : forall R : Type, qcorE R -> lib_state -> option (R * lib_state)
}.

Arguments lib_call _ {R} _ _.

Inductive Event : Type :=
| ECall {R : Type} (c : qcorE R) (r : option R)
| EObs (o : Observation).

Definition Trace : Type := list Event.

Inductive Outcome (A : Type) : Type :=
| Returned (a : A)
| Aborted
| Undefined
| Thrown.

Arguments Returned {A} a.
Arguments Aborted {A}.
Arguments Undefined {A}.
Arguments Thrown {A}.

(** The result of a run: what happened, how it ended, and the library's
    state at the end. *)
Record Result (A S : Type) : Type := {
  trace : Trace;
  outcome : Outcome A;
  final : S
}.

Arguments trace {A S} _.
Arguments outcome {A S} _.
Arguments final {A S} _.

Fixpoint run {A : Type} (L : Library) (p : Prog A) (s : lib_state L)
  : Result A (lib_state L) :=
  match p with
  | Ret a => {| trace := []; outcome := Returned a; final := s |}
  | Call c k =>
      match lib_call L c s with
      | Some (r, s') =>
          let res := run L (k r) s' in
          {| trace := ECall c (Some r) :: trace res;
             outcome := outcome res;
             final := final res |}
      | None => {| trace := [ECall c None]; outcome := Thrown; final := s |}
      end
  | Emit o k =>
      let res := run L k s in
      {| trace := EObs o :: trace res;
         outcome := outcome res;
         final := final res |}
  | Halt => {| trace := []; outcome := Aborted; final := s |}
  | OutOfRange => {| trace := []; outcome := Undefined; final := s |}
  end.

(** ** Reading a trace *)

(** The pairs that the [execute] calls returned, in order. *)
Definition execute_result (e : Event) : list (float * list float) :=
  match e with
  | ECall c r =>
      match c in qcorE R return option R -> list (float * list float) with
      | execute _ _ _ => fun r => match r with Some p => [p] | None => [] end
      | _ => fun _ => []
      end r
  | EObs _ => []
  end.

Definition execute_results (t : Trace) : list (float * list float) :=
  flat_map execute_result t.

(** The [execute] calls made, answered or not: solver, optimizer and
    initial parameters. *)
Definition execute_request (e : Event) : list (VQE * option Optimizer * Args) :=
  match e with
  | ECall (execute v o a) _ => [(v, o, a)]
  | _ => []
  end.

Definition execute_requests (t : Trace) : list (VQE * option Optimizer * Args) :=
  flat_map execute_request t.

(** The conditions of the [qcor_expect] checks evaluated, in order. *)
Definition check (e : Event) : list bool :=
  match e with
  | EObs (Expect b) => [b]
  | _ => []
  end.

Definition checks (t : Trace) : list bool := flat_map check t.

(** The arguments of the [createOptimizer] calls. *)
Definition optimizer_request (e : Event) : list (string * HeterogeneousMap) :=
  match e with
  | ECall (createOptimizer name options) _ => [(name, options)]
  | _ => []
  end.

Definition optimizer_requests (t : Trace) : list (string * HeterogeneousMap) :=
  flat_map optimizer_request t.

(** The arguments of the [VQE] constructions. *)
Definition construction (e : Event)
  : list (Kernel * Obs.Operator * HeterogeneousMap) :=
  match e with
  | ECall (VQE_new k o opts) _ => [(k, o, opts)]
  | _ => []
  end.

Definition constructions (t : Trace)
  : list (Kernel * Obs.Operator * HeterogeneousMap) :=
  flat_map construction t.

(** The solver handles that the constructions returned. *)
Definition constructed_solver (e : Event) : list VQE :=
  match e with
  | ECall c r =>
      match c in qcorE R return option R -> list VQE with
      | VQE_new _ _ _ => fun r => match r with Some v => [v] | None => [] end
      | _ => fun _ => []
      end r
  | EObs _ => []
  end.

Definition constructed (t : Trace) : list VQE := flat_map constructed_solver t.

(** The optimizer handles that [createOptimizer] returned. *)
Definition created_optimizer (e : Event) : list Optimizer :=
  match e with
  | ECall c r =>
      match c in qcorE R return option R -> list Optimizer with
      | createOptimizer _ _ =>
          fun r => match r with Some o => [o] | None => [] end
      | _ => fun _ => []
      end r
  | EObs _ => []
  end.

Definition created (t : Trace) : list Optimizer := flat_map created_optimizer t.

(** What the accessors returned. *)
Definition parameter_report (e : Event) : list (list (list float)) :=
  match e with
  | ECall c r =>
      match c in qcorE R return option R -> list (list (list float)) with
      | get_unique_parameters _ =>
          fun r => match r with Some ps => [ps] | None => [] end
      | _ => fun _ => []
      end r
  | EObs _ => []
  end.

Definition parameter_reports (t : Trace) : list (list (list float)) :=
  flat_map parameter_report t.

Definition energy_report (e : Event) : list (list (float * list float)) :=
  match e with
  | ECall c r =>
      match c in qcorE R return option R -> list (list (float * list float)) with
      | get_unique_energies _ =>
          fun r => match r with Some es => [es] | None => [] end
      | _ => fun _ => []
      end r
  | EObs _ => []
  end.

Definition energy_reports (t : Trace) : list (list (float * list float)) :=
  flat_map energy_report t.

Definition nonempty {A : Type} (v : list A) : bool :=
  match v with
  | [] => false
  | _ :: _ => true
  end.

(** The statements of [std::cout]. *)
Definition is_cout (e : Event) : bool :=
  match e with
  | EObs (Cout _) => true
  | _ => false
  end.

(** Calls into the asynchronous interface. *)
Definition is_async (e : Event) : bool :=
  match e with
  | ECall (execute_async _ _ _) _ => true
  | ECall (sync _ _) _ => true
  | _ => false
  end.

(** Calls that threw. *)
Definition is_throw (e : Event) : bool :=
  match e with
  | ECall _ None => true
  | _ => false
  end.

(** A program is quiet when it only writes to [std::cout]: it returns,
    leaves the library as it was, and its trace has no other event. *)
Definition quiet (L : Library) (p : Prog unit) : Prop :=
  forall s : lib_state L,
    outcome (run L p s) = Returned tt /\
    final (run L p s) = s /\
    forallb is_cout (trace (run L p s)) = true.

(** The tolerance test that [main] writes at each [qcor_expect]. *)
Definition within_tolerance (energy : float) : bool :=
  (abs (energy + 1.74886) <? 0.1)%float.

(** Whether an option list sets a key. *)
Definition has_key (key : string) (m : HeterogeneousMap) : bool :=
  existsb (fun kv => String.eqb key (fst kv)) m.

(** ** The hybrid library

    The [VQE] class, the optimizer factory and the accessors are declared
    in [qcor_hybrid.hpp], which the example includes but which is not part
    of it. The definitions of this module follow the specification's
    description of that interface. The backend's energy estimate and the
    optimizer's update rule stay parameters. *)

Module Hybrid.

(** Modelled from the spec: the optimizer that the factory (missing, in
    [qcor_hybrid.hpp]) makes, a name with string/value configuration
    options. *)
Record OptimizerObject : Type := {
  opt_name : string;
  opt_options : HeterogeneousMap
}.

(** Modelled from the spec: an object of the [VQE] class (missing, in
    [qcor_hybrid.hpp]), constructed from a kernel function and a
    Hamiltonian expression, with the (energy, parameters) pairs observed
    during its last optimization, the latest first. *)
Record VQEObject : Type := {
  kernel : Kernel;
  observable : Obs.Operator;
  options : HeterogeneousMap;
  evaluations : list (float * list float)
}.

(** Modelled from the spec: the objects of the library, the solvers and
    the optimizers made so far; a handle is the position of its object. *)
Record State : Type := {
  solvers : list VQEObject;
  optimizers : list OptimizerObject
}.

(** Modelled from the spec: the library before any object is made. *)
Definition initial : State := {| solvers := []; optimizers := [] |}.

(** Modelled from the spec: a solver after an optimization, holding the
    pairs observed during it. *)
Definition with_evaluations (v : VQEObject) (log : list (float * list float))
  : VQEObject :=
  {| kernel := kernel v; observable := observable v; options := options v;
     evaluations := log |}.

(** Modelled from the spec: the update of the object behind a handle;
    nothing changes when the handle is out of range. *)
Fixpoint set_nth {A : Type} (l : list A) (i : nat) (a : A) : list A :=
  match l, i with
  | [], _ => []
  | _ :: l', O => a :: l'
  | b :: l', S j => b :: set_nth l' j a
  end.

(** Modelled from the spec: what makes parameter vectors unique, equality
    component by component, bit for bit. *)
Fixpoint params_eqb (p q : list float) : bool :=
  match p, q with
  | [], [] => true
  | a :: p', b :: q' => Leibniz.eqb a b && params_eqb p' q'
  | _, _ => false
  end.

(** Modelled from the spec: what makes (energy, parameters) pairs unique,
    equality of both components. *)
Definition pair_eqb (r s : float * list float) : bool :=
  Leibniz.eqb (fst r) (fst s) && params_eqb (snd r) (snd s).

(** Modelled from the spec: the set of unique elements of a list, each
    kept once. *)
Fixpoint unique {A : Type} (eqb : A -> A -> bool) (l : list A) : list A :=
  match l with
  | [] => []
  | a :: l' =>
      if existsb (eqb a) l' then unique eqb l' else a :: unique eqb l'
  end.

(** Modelled from the spec: the initial parameters of [execute] as a
    vector; [execute(0.0)] starts from the one-element vector. *)
Definition initial_parameters (a : Args) : list float :=
  match a with
  | ArgDouble x => [x]
  | ArgVector v => v
  end.

(** Modelled from the spec: the ansatz, a parameterized circuit template,
    at a parameter vector; a kernel of one [double] takes a vector of
    length one. *)
Definition instantiate (k : Kernel) (q : qreg) (p : list float)
  : option (list KernelStmt) :=
  match k, p with
  | KernelDouble f, [x] => Some (f q x)
  | KernelDouble _, _ => None
  | KernelVector f, _ => f q p
  end.

(** Modelled from the spec: the number of qubits a Hamiltonian acts on,
    and the register of that size on which the library runs a kernel. *)
Definition nbits (o : Obs.Operator) : nat :=
  fold_right Nat.max 0%nat (map S (Obs.qubits o)).

(** Modelled from the spec: the allocation of a qubit register, the
    register handle that the kernels take. *)
Definition qalloc (n : nat) : qreg := {| qreg_name := "q"; qreg_size := n |}.

(** Modelled from the spec: the result of minimizing the energy, the entry
    of lowest energy, the earliest evaluation among equals. *)
Fixpoint best (log : list (float * list float)) : option (float * list float) :=
  match log with
  | [] => None
  | r :: log' =>
      match best log' with
      | Some b => if (fst r <? fst b)%float then Some r else Some b
      | None => Some r
      end
  end.

(** Modelled from the spec: the value a configuration gives to a key, the
    first if it gives several. *)
Fixpoint lookup (key : string) (m : HeterogeneousMap) : option OptionValue :=
  match m with
  | [] => None
  | (k, v) :: m' => if String.eqb key k then Some v else lookup key m'
  end.

Section Library.

(** The backend, which executes compiled circuits: the energy estimate of
    an observable on the state a circuit prepares. *)
Variable estimate : Circuit -> Obs.Operator -> float.

(** The classical parameter update of an optimizer, given the solver's
    options and the evaluations so far: the next parameters, or [None]
    when it stops. *)
Variable update :
  OptimizerObject -> HeterogeneousMap -> list (float * list float) ->
  option (list float).

(** The optimizer of [execute] without an explicit one, and the
    evaluation budget of an optimizer that sets none. *)
Variable default_optimizer : OptimizerObject.
Variable default_maxeval : nat.

(** Modelled from the spec: the maximum number of evaluations that an
    optimizer is configured with, the option that [main] names
    nlopt-maxeval. *)
Definition maxeval (opt : OptimizerObject) : nat :=
  match lookup "nlopt-maxeval" (opt_options opt) with
  | Some (OptInt n) => Z.to_nat n
  | _ => default_maxeval
  end.

(** Modelled from the spec: one quantum-circuit evaluation, the
    estimate of the energy at parameters [p]; [None] when the kernel
    reads its parameters out of range. *)
Definition energy_at (v : VQEObject) (p : list float) : option float :=
  match instantiate (kernel v) (qalloc (nbits (observable v))) p with
  | Some body => Some (estimate (compile body) (observable v))
  | None => None
  end.

(** Modelled from the spec: the variational eigensolver, an
    optimization loop alternating quantum-circuit evaluation with
    classical parameter updates, for at most [fuel] evaluations. It
    returns the evaluations made, the latest first. *)
Fixpoint optimize (fuel : nat) (v : VQEObject) (opt : OptimizerObject)
         (x : list float) (log : list (float * list float))
  : option (list (float * list float)) :=
  match fuel with
  | O => Some log
  | S n =>
      match energy_at v x with
      | None => None
      | Some e =>
          let log' := (e, x) :: log in
          match update opt (options v) log' with
          | Some x' => optimize n v opt x' log'
          | None => Some log'
          end
      end
  end.

(** Modelled from the spec: the optimizer of a call of [execute], the one
    given explicitly or else the default one. *)
Definition optimizer_for (s : State) (o : option Optimizer)
  : option OptimizerObject :=
  match o with
  | None => Some default_optimizer
  | Some h => nth_error (optimizers s) (optimizer_id h)
  end.

(** Modelled from the spec: [VQE::execute], with or without an explicit
    optimizer. It runs the optimization from the initial parameters,
    keeps the evaluations in the solver and returns the pair (energy,
    parameters) of lowest energy. *)
Definition VQE_execute (s : State) (v : VQE) (o : option Optimizer)
           (a : Args) : option ((float * list float) * State) :=
  match nth_error (solvers s) (vqe_id v), optimizer_for s o with
  | Some obj, Some opt =>
      match optimize (maxeval opt) obj opt (initial_parameters a) [] with
      | Some log =>
          match best log with
          | Some r =>
              Some (r, {| solvers := set_nth (solvers s) (vqe_id v)
                                       (with_evaluations obj log);
                          optimizers := optimizers s |})
          | None => None
          end
      | None => None
      end
  | _, _ => None
  end.

(** Modelled from the spec: the accessor [get_unique_parameters],
    returning the set of unique parameter vectors observed during the
    optimization. *)
Definition VQE_get_unique_parameters (s : State) (v : VQE)
  : option (list (list float)) :=
  match nth_error (solvers s) (vqe_id v) with
  | Some obj => Some (unique params_eqb (map snd (evaluations obj)))
  | None => None
  end.

(** Modelled from the spec: the accessor [get_unique_energies], returning
    the corresponding energies observed during the optimization, each
    with its parameter vector. *)
Definition VQE_get_unique_energies (s : State) (v : VQE)
  : option (list (float * list float)) :=
  match nth_error (solvers s) (vqe_id v) with
  | Some obj => Some (unique pair_eqb (evaluations obj))
  | None => None
  end.

(** Modelled from the spec: the factory for named optimizers with
    string/value configuration options, and the construction of a
    solver from a kernel and a Hamiltonian. The specification gives the
    asynchronous interface no behaviour: calls to it are refused. *)
Definition qcor_call (R : Type) (c : qcorE R) (s : State)
  : option (R * State) :=
  match c in qcorE R return option (R * State) with
  | createOptimizer name opts =>
      Some ({| optimizer_id := List.length (optimizers s) |},
            {| solvers := solvers s;
               optimizers := optimizers s ++
                             [{| opt_name := name; opt_options := opts |}] |})
  | VQE_new k o opts =>
      Some ({| vqe_id := List.length (solvers s) |},
            {| solvers := solvers s ++
                          [{| kernel := k; observable := o; options := opts;
                              evaluations := [] |}];
               optimizers := optimizers s |})
  | execute v o a => VQE_execute s v o a
  | execute_async _ _ _ => None
  | sync _ _ => None
  | get_unique_parameters v =>
      match VQE_get_unique_parameters s v with
      | Some ps => Some (ps, s)
      | None => None
      end
  | get_unique_energies v =>
      match VQE_get_unique_energies s v with
      | Some es => Some (es, s)
      | None => None
      end
  end.

(** Modelled from the spec: the hybrid library as a whole, over a backend
    and an update rule. *)
Definition qcor : Library :=
  {| lib_state := State; lib_call := qcor_call |}.

End Library.

End Hybrid.

(** A backend that reports the energy [-1.74] whatever the circuit, and an
    optimizer that stops after its first evaluation. *)
Definition flat_backend : Circuit -> Obs.Operator -> float :=
  fun _ _ => (-1.74)%float.

Definition one_shot :
  Hybrid.OptimizerObject -> HeterogeneousMap -> list (float * list float) ->
  option (list float) :=
  fun _ _ _ => None.

(** A default optimizer without options. *)
Definition plain_nlopt : Hybrid.OptimizerObject :=
  {| Hybrid.opt_name := "nlopt"; Hybrid.opt_options := [] |}.

Definition flat_qcor : Library := Hybrid.qcor flat_backend one_shot plain_nlopt 100.

(** A backend whose energy is a parabola in the angle of the circuit, with
    its minimum, the reference energy, at 0.594; and an optimizer that
    steps every parameter by 0.1 until its budget ends. *)
Definition angle (c : Circuit) : float :=
  match c with
  | [IX _; IRy _ theta; ICNOT _ _] => theta
  | [IX _; IExpITheta _ theta _] => theta
  | _ => 0%float
  end.

Definition parabola : Circuit -> Obs.Operator -> float :=
  fun c _ =>
    let d := (angle c - 0.594)%float in (d * d - 1.74886)%float.

Definition sweep :
  Hybrid.OptimizerObject -> HeterogeneousMap -> list (float * list float) ->
  option (list float) :=
  fun _ _ log =>
    match log with
    | (_, x) :: _ => Some (map (fun c => (c + 0.1)%float) x)
    | [] => None
    end.

Definition sweep_qcor : Library := Hybrid.qcor parabola sweep plain_nlopt 20.

(** The library's state with one solver, made from [ansatz] and [H], before
    and after its [execute(0.0)]. *)
Definition one_solver : Hybrid.State :=
  {| Hybrid.solvers :=
       [ {| Hybrid.kernel := KernelDouble ansatz;
            Hybrid.observable := H;
            Hybrid.options := [];
            Hybrid.evaluations := [] |} ];
     Hybrid.optimizers := [] |}.

Definition one_solver_run : Hybrid.State :=
  match lib_call sweep_qcor (execute {| vqe_id := 0 |} None (ArgDouble 0.0%float))
                 one_solver with
  | Some (_, s') => s'
  | None => one_solver
  end.

(** A library that answers the [execute] calls from a script, one pair per
    call, and has nothing to report through the accessors. *)
Definition scripted_call (R : Type) (c : qcorE R)
           (s : nat * list (float * list float))
  : option (R * (nat * list (float * list float))) :=
  match c in qcorE R return option (R * (nat * list (float * list float))) with
  | createOptimizer _ _ => Some ({| optimizer_id := fst s |}, (S (fst s), snd s))
  | VQE_new _ _ _ => Some ({| vqe_id := fst s |}, (S (fst s), snd s))
  | execute _ _ _ =>
      match snd s with
      | r :: script => Some (r, (fst s, script))
      | [] => None
      end
  | execute_async _ _ _ => None
  | sync _ _ => None
  | get_unique_parameters _ => Some ([], s)
  | get_unique_energies _ => Some ([], s)
  end.

Definition scripted : Library :=
  {| lib_state := nat * list (float * list float); lib_call := scripted_call |}.

(** Answers of a library whose third solver ends away from the reference
    energy, and of one whose second solver does. *)
Definition third_off : list (float * list float) :=
  [ ((-1.74886)%float, [0.594%float]);
    ((-1.74886)%float, [0.594%float]);
    (0%float, [0.55%float]) ].

Definition second_off : list (float * list float) :=
  [ ((-1.74886)%float, [0.594%float]);
    (0%float, [0%float]);
    ((-1.74886)%float, [0.594%float]) ].

(** ** Reading circuits and output *)




(** The items of the [std::cout] statements of a trace, in order. *)
Definition cout_items (e : Event) : list (list OutItem) :=
  match e with
  | EObs (Cout items) => [items]
  | _ => []
  end.

Definition output (t : Trace) : list (list OutItem) := flat_map cout_items t.

(** The statement that prints the result of a solver, as [main] writes it
    after each [execute]; there is none for an empty parameter vector,
    whose read is out of range. *)
Definition result_line (r : float * list float) : list (list OutItem) :=
  match snd r with
  | p0 :: _ =>
      [[OutStr "<H>("; OutDouble p0; OutStr ") = "; OutDouble (fst r);
        OutStr nl]]
  | [] => []
  end.

Definition is_result_line (items : list OutItem) : bool :=
  match items with
  | OutStr s :: _ => String.eqb s "<H>("
  | _ => false
  end.

(** The heading that [main] prints before its last loop. *)
Definition heading : list OutItem :=
  [OutStr ("All Energies and Parameters:" ++ nl)].

(** The statements that one round of the last loop of [main] prints, and
    those of the whole loop. *)
Definition energy_line (energy_param : float * list float)
  : list (list OutItem) :=
  [OutStr "E: Pvec = "; OutDouble (fst energy_param); OutStr ": [ "]
  :: map (fun p => [OutDouble p; OutStr " "]) (snd energy_param)
  ++ [[OutStr "]"; OutEndl]].

Definition energy_lines (l : list (float * list float)) : list (list OutItem) :=
  flat_map energy_line l.

(** A program prints given statements when it returns after writing them
    to [std::cout], with no other event, and leaves the library as it
    was. *)
Definition prints (L : Library) (p : Prog unit) (lines : list (list OutItem))
  : Prop :=
  forall s : lib_state L,
    trace (run L p s) = map (fun items => EObs (Cout items)) lines /\
    outcome (run L p s) = Returned tt /\
    final (run L p s) = s.

(** The constructions answered, the [execute] calls and the checks of a
    trace, in order: the solver made, the solver run, the condition. *)
Inductive Step : Type :=
| Made (v : VQE)
| Ran (v : VQE)
| Checked (b : bool).

Definition step (e : Event) : list Step :=
  match e with
  | ECall c r =>
      match c in qcorE R return option R -> list Step with
      | VQE_new _ _ _ => fun r => match r with Some v => [Made v] | None => [] end
      | execute v _ _ => fun _ => [Ran v]
      | _ => fun _ => []
      end r
  | EObs (Expect b) => [Checked b]
  | EObs (Cout _) => []
  end.

Definition steps (t : Trace) : list Step := flat_map step t.

(** The solvers that the accessors are called on. *)
Definition accessor_target (e : Event) : list VQE :=
  match e with
  | ECall (get_unique_parameters v) _ => [v]
  | ECall (get_unique_energies v) _ => [v]
  | _ => []
  end.

Definition accessor_targets (t : Trace) : list VQE :=
  flat_map accessor_target t.

(** * Properties *)

(** ** Running programs *)

Section Runs.

Variable L : Library.

(** A sequence runs its first part and, when that returns, the rest from
    the state it left. *)
Lemma run_bind {A B : Type} (p : Prog A) (f : A -> Prog B) (s : lib_state L) :
  match outcome (run L p s) with
  | Returned a =>
      let rest := run L (f a) (final (run L p s)) in
      trace (run L (Prog_bind p f) s) = trace (run L p s) ++ trace rest /\
      outcome (run L (Prog_bind p f) s) = outcome rest /\
      final (run L (Prog_bind p f) s) = final rest
  | Aborted =>
      trace (run L (Prog_bind p f) s) = trace (run L p s) /\
      outcome (run L (Prog_bind p f) s) = Aborted /\
      final (run L (Prog_bind p f) s) = final (run L p s)
  | Undefined =>
      trace (run L (Prog_bind p f) s) = trace (run L p s) /\
      outcome (run L (Prog_bind p f) s) = Undefined /\
      final (run L (Prog_bind p f) s) = final (run L p s)
  | Thrown =>
      trace (run L (Prog_bind p f) s) = trace (run L p s) /\
      outcome (run L (Prog_bind p f) s) = Thrown /\
      final (run L (Prog_bind p f) s) = final (run L p s)
  end.
Proof.
  revert s. induction p as [a | R c k IH | o k IH | | ]; intros s; cbn.
  - auto.
  - destruct (lib_call L c s) as [[r s'] | ]; cbn; [ | auto].
    specialize (IH r s').
    destruct (outcome (run L (k r) s')); cbn in *;
      destruct IH as (Ht & Ho & Hf); rewrite Ht; auto.
  - specialize (IH s).
    destruct (outcome (run L k s)); cbn in *;
      destruct IH as (Ht & Ho & Hf); rewrite Ht; auto.
  - auto.
  - auto.
Qed.

Lemma quiet_cout (items : list OutItem) : quiet L (cout items).
Proof. intros s. cbn. auto. Qed.

Lemma quiet_bind (p : Prog unit) (f : unit -> Prog unit) :
  quiet L p -> (forall u, quiet L (f u)) -> quiet L (Prog_bind p f).
Proof.
  intros Hp Hf s.
  destruct (Hp s) as (Ho & Hs & Ht).
  pose proof (run_bind p f s) as Hb. rewrite Ho in Hb. cbn in Hb.
  destruct Hb as (Hbt & Hbo & Hbf). rewrite Hs in *.
  destruct (Hf tt s) as (Ho' & Hs' & Ht').
  rewrite Hbt, Hbo, Hbf, forallb_app, Ht, Ht'. auto.
Qed.

Lemma quiet_for_each {A : Type} (l : list A) (body : A -> Prog unit) :
  (forall a, quiet L (body a)) -> quiet L (for_each l body).
Proof.
  intros Hbody. induction l as [ | a l IH]; cbn.
  - intros s. cbn. auto.
  - apply quiet_bind; auto.
Qed.

Lemma quiet_print_energies (l : list (float * list float)) :
  quiet L (print_energies l).
Proof.
  unfold print_energies. apply quiet_for_each. intros a.
  apply quiet_bind; [apply quiet_cout | intros _].
  apply quiet_bind; [ | intros _; apply quiet_cout].
  apply quiet_for_each. intros p. apply quiet_cout.
Qed.

End Runs.

(** ** Reading the trace of a quiet program *)

Lemma flat_map_cout {B : Type} (f : Event -> list B) (t : Trace) :
  (forall e, is_cout e = true -> f e = []) ->
  forallb is_cout t = true -> flat_map f t = [].
Proof.
  intros Hf. induction t as [ | e t IH]; cbn; [reflexivity | ].
  intros Ht. apply andb_prop in Ht. destruct Ht as [He Ht].
  rewrite (Hf e He), (IH Ht). reflexivity.
Qed.

Lemma existsb_cout (f : Event -> bool) (t : Trace) :
  (forall e, is_cout e = true -> f e = false) ->
  forallb is_cout t = true -> existsb f t = false.
Proof.
  intros Hf. induction t as [ | e t IH]; cbn; [reflexivity | ].
  intros Ht. apply andb_prop in Ht. destruct Ht as [He Ht].
  rewrite (Hf e He), (IH Ht). reflexivity.
Qed.

Ltac cout_event :=
  let e := fresh "e" in
  let He := fresh "He" in
  intros e He; destruct e as [R c r | [items | b]];
  [discriminate He | reflexivity | discriminate He].

(** ** Symbolic execution of [main]

    [main_cases L] follows [main] against an arbitrary library: at each
    call it splits on the library throwing or answering, at each vector
    read on the vector being empty, at each check on its condition. The
    loop at the end is quiet. *)

Ltac sim :=
  cbn -[H ansatz ansatz_vec xasm_open_qasm_mixed_ansatz print_energies nl].

Ltac main_step L :=
  lazymatch goal with
  | |- context [lib_call L ?c ?s] =>
      destruct (lib_call L c s) as [[? ?] | ] eqn:?
  | |- context [run L (let (_, _) := ?r in _) _] => destruct r
  | |- context [subscript ?v 0] => destruct v
  | |- context [if ?b then _ else _] => destruct b eqn:?
  | |- context [run L (print_energies ?l) ?s] =>
      let Ho := fresh "Hloop" in
      let Hf := fresh "Hfinal" in
      let Ht := fresh "Hcout" in
      destruct (quiet_print_energies L l s) as (Ho & Hf & Ht);
      rewrite ?Ho, ?Hf; clear Ho Hf; revert Ht;
      generalize (trace (run L (print_energies l) s)); intros ? Ht
  end; sim.

(** The goal is read as a property of [run L main s]; the run is followed
    with the property set aside, which is put back at each end. *)
Ltac main_cases L s :=
  cbv zeta;
  pattern (run L main s);
  lazymatch goal with
  | |- ?P _ =>
      let Q := fresh "Q" in
      let HQ := fresh "HQ" in
      remember P as Q eqn:HQ;
      unfold main; sim; repeat main_step L; subst Q; sim
  end.

(** What is read off the quiet end of a trace is empty. *)
Ltac quiet_tail :=
  repeat match goal with
  | Hc : forallb is_cout ?t = true |- context [flat_map ?f ?t] =>
      rewrite (flat_map_cout f t ltac:(cout_event) Hc)
  | Hc : forallb is_cout ?t = true |- context [existsb ?f ?t] =>
      rewrite (existsb_cout f t ltac:(cout_event) Hc)
  end.

(** Every normal run of [main]: three solvers are run, the energies of the
    first two are within tolerance, and the three checks evaluated are the
    test of the first energy, then twice the test of the second. *)
Lemma main_returned (L : Library) (s : lib_state L) :
  outcome (run L main s) = Returned tt ->
  exists e1 p1 e2 p2 e3 p3,
    execute_results (trace (run L main s)) = [(e1, p1); (e2, p2); (e3, p3)] /\
    checks (trace (run L main s)) =
      [within_tolerance e1; within_tolerance e2; within_tolerance e2] /\
    within_tolerance e1 = true /\
    within_tolerance e2 = true.
Proof.
  unfold execute_results, checks, within_tolerance.
  main_cases L s; intros Hout; try discriminate Hout.
  quiet_tail. do 6 eexists. repeat split; try reflexivity; try eassumption.
  repeat match goal with Hb : _ = true |- _ => rewrite Hb; clear Hb end.
  reflexivity.
Qed.

(** ** The tolerance checks of [main] *)

(** C1, at a failing input: against a library whose first two solvers
    return the reference energy and whose third returns the energy 0,
    [main] runs to its end. Its three checks all pass, although the third
    energy is not within the tolerance: the third check tests the energy
    of the second solver again. *)
Theorem third_energy_escapes_the_check :
  let r := run scripted main (0%nat, third_off) in
  outcome r = Returned tt /\
  execute_results (trace r) = third_off /\
  map (fun x => within_tolerance (fst x)) (execute_results (trace r)) =
    [true; true; false] /\
  checks (trace r) = [true; true; true].
Proof. vm_compute. repeat split. Qed.

(** C2: a [qcor_expect] whose condition is false ends the run there, as
    aborted, whatever follows it; one whose condition is true goes on with
    what follows. In [main], a false check is the last event of the run;
    a second [execute] call is made only after a first energy within the
    tolerance, and a third only after two. *)
Theorem expect_guards_later_statements :
  (forall (L : Library) (A : Type) (k : unit -> Prog A) (s : lib_state L),
      run L (u <- qcor_expect false ;; k u) s =
        {| trace := [EObs (Expect false)]; outcome := Aborted; final := s |} /\
      run L (u <- qcor_expect true ;; k u) s =
        {| trace := EObs (Expect true) :: trace (run L (k tt) s);
           outcome := outcome (run L (k tt) s);
           final := final (run L (k tt) s) |}) /\
  (forall (L : Library) (s : lib_state L),
      let r := run L main s in
      (In false (checks (trace r)) ->
       outcome r = Aborted /\
       last (trace r) (EObs (Expect true)) = EObs (Expect false)) /\
      (forall req, nth_error (execute_requests (trace r)) 1 = Some req ->
       exists e1 p1,
         nth_error (execute_results (trace r)) 0 = Some (e1, p1) /\
         within_tolerance e1 = true) /\
      (forall req, nth_error (execute_requests (trace r)) 2 = Some req ->
       exists e1 p1 e2 p2,
         nth_error (execute_results (trace r)) 0 = Some (e1, p1) /\
         nth_error (execute_results (trace r)) 1 = Some (e2, p2) /\
         within_tolerance e1 = true /\
         within_tolerance e2 = true)).
Proof.
  split.
  - intros L A k s. split; reflexivity.
  - intros L s. unfold checks, execute_requests, execute_results, within_tolerance.
    main_cases L s; quiet_tail; (split; [ | split]).
    all: try (intros Hin;
              repeat (destruct Hin as [Hin | Hin]; try discriminate Hin);
              try contradiction; split; reflexivity).
    all: try (intros req Hreq; discriminate Hreq).
    all: intros req _; repeat eexists; eassumption.
Qed.

(** The run against a library whose second energy is off: the second check
    is false, the run is aborted, and its last event is that check. *)
Lemma expect_guards_later_statements_witness :
  In false (checks (trace (run scripted main (0%nat, second_off)))) /\
  outcome (run scripted main (0%nat, second_off)) = Aborted /\
  last (trace (run scripted main (0%nat, second_off))) (EObs (Expect true)) =
    EObs (Expect false).
Proof.
  assert (Hin : In false (checks (trace (run scripted main (0%nat, second_off))))).
  { vm_compute. right. left. reflexivity. }
  split; [exact Hin | ].
  exact (proj1 (proj2 expect_guards_later_statements scripted (0%nat, second_off)) Hin).
Defined.

(** C3, as stated, fails: a normal run evaluates three checks, not one. *)
Lemma one_check_refuted :
  ~ (forall (L : Library) (s : lib_state L),
        outcome (run L main s) = Returned tt ->
        List.length (checks (trace (run L main s))) = 1%nat).
Proof.
  intros Hone. specialize (Hone flat_qcor Hybrid.initial eq_refl).
  vm_compute in Hone. discriminate Hone.
Qed.

(** C3, amended: a normal run evaluates exactly three checks, all true,
    one after each [execute] call: it constructs a solver, runs it once
    and checks, three times over. No call of it threw, and it made three
    [execute] calls. No run recovers from a call that throws: the throw is
    its last event. *)
Theorem three_checks_no_recovery :
  forall (L : Library) (s : lib_state L),
    let r := run L main s in
    (outcome r = Returned tt ->
     checks (trace r) = [true; true; true] /\
     existsb is_throw (trace r) = false /\
     List.length (execute_requests (trace r)) = 3%nat /\
     exists vqe vqe_vec vqe_openqasm,
       steps (trace r) =
         [ Made vqe; Ran vqe; Checked true;
           Made vqe_vec; Ran vqe_vec; Checked true;
           Made vqe_openqasm; Ran vqe_openqasm; Checked true ]) /\
    (existsb is_throw (trace r) = true ->
     outcome r = Thrown /\
     is_throw (last (trace r) (EObs (Expect true))) = true).
Proof.
  intros L s. unfold checks, execute_requests, steps.
  main_cases L s; quiet_tail; split; intros Hyp;
    try discriminate Hyp; repeat split.
  do 3 eexists. reflexivity.
Qed.

Lemma three_checks_no_recovery_witness :
  checks (trace (run flat_qcor main Hybrid.initial)) = [true; true; true] /\
  existsb is_throw (trace (run flat_qcor main Hybrid.initial)) = false /\
  List.length (execute_requests (trace (run flat_qcor main Hybrid.initial))) =
    3%nat /\
  exists vqe vqe_vec vqe_openqasm,
    steps (trace (run flat_qcor main Hybrid.initial)) =
      [ Made vqe; Ran vqe; Checked true;
        Made vqe_vec; Ran vqe_vec; Checked true;
        Made vqe_openqasm; Ran vqe_openqasm; Checked true ].
Proof.
  apply (proj1 (three_checks_no_recovery flat_qcor Hybrid.initial)).
  vm_compute. reflexivity.
Defined.

(** ** The kernels *)

(** C10: for every register and angle, [ansatz] and the mixed
    openqasm/xasm kernel are lowered to the same circuit: X on [q[0]], Ry
    by the angle on [q[1]], then CNOT with control [q[1]] and target
    [q[0]]. *)
Theorem mixed_kernel_same_circuit :
  forall (q : qreg) (x : float),
    compile (ansatz q x) =
      [IX (qreg_at q 0); IRy (qreg_at q 1) x;
       ICNOT (qreg_at q 1) (qreg_at q 0)] /\
    compile (xasm_open_qasm_mixed_ansatz q x) =
      [IX (qreg_at q 0); IRy (qreg_at q 1) x;
       ICNOT (qreg_at q 1) (qreg_at q 0)].
Proof. intros q x. split; reflexivity. Qed.

Lemma ansatz_vec_defined (q : qreg) (x : list float) :
  ansatz_vec q x = None <-> x = [].
Proof.
  destruct x as [ | x0 x]; cbn; split; intros Hx; try reflexivity;
    discriminate Hx.
Qed.

(** ** The Hamiltonian *)

Lemma expand_H :
  Obs.expand H =
    [ (5.907%float, []);
      ((-2.1433)%float, [(Obs.PX, 0%nat); (Obs.PX, 1%nat)]);
      ((-2.1433)%float, [(Obs.PY, 0%nat); (Obs.PY, 1%nat)]);
      (0.21829%float, [(Obs.PZ, 0%nat)]);
      ((-6.125)%float, [(Obs.PZ, 1%nat)]) ].
Proof. vm_compute. reflexivity. Qed.

(** C7: the Hamiltonian of [main] is the weighted sum
    5.907 - 2.1433 X0X1 - 2.1433 Y0Y1 + 0.21829 Z0 - 6.125 Z1; its terms
    act on qubits 0 and 1 and on no other; every solver that [main]
    constructs is given this Hamiltonian, and a normal run constructs
    three. *)
Theorem hamiltonian_two_qubit_weighted_sum :
  Obs.expand H =
    [ (5.907%float, []);
      ((-2.1433)%float, [(Obs.PX, 0%nat); (Obs.PX, 1%nat)]);
      ((-2.1433)%float, [(Obs.PY, 0%nat); (Obs.PY, 1%nat)]);
      (0.21829%float, [(Obs.PZ, 0%nat)]);
      ((-6.125)%float, [(Obs.PZ, 1%nat)]) ] /\
  (forall i : nat,
      In i (Obs.support (Obs.expand H)) <-> i = 0%nat \/ i = 1%nat) /\
  (forall (L : Library) (s : lib_state L),
      Forall (fun c => snd (fst c) = H)
             (constructions (trace (run L main s)))) /\
  (forall (L : Library) (s : lib_state L),
      outcome (run L main s) = Returned tt ->
      map (fun c => snd (fst c)) (constructions (trace (run L main s))) =
        [H; H; H]).
Proof.
  split; [exact expand_H | ]. split; [ | split].
  - intros i. rewrite expand_H. cbn. intuition congruence.
  - intros L s. unfold constructions.
    main_cases L s; quiet_tail; repeat constructor.
  - intros L s. unfold constructions.
    main_cases L s; quiet_tail; intros Hout; try discriminate Hout.
    reflexivity.
Qed.

Lemma hamiltonian_two_qubit_weighted_sum_witness :
  map (fun c => snd (fst c))
      (constructions (trace (run flat_qcor main Hybrid.initial))) = [H; H; H].
Proof.
  apply (proj2 (proj2 (proj2 hamiltonian_two_qubit_weighted_sum))).
  vm_compute. reflexivity.
Defined.

(** ** Synchronous execution *)

(** C8: no run of [main] calls the asynchronous interface; in a normal run
    the three solvers are run by three [execute] calls, each answered
    before [main] goes on: the first two without an optimizer, from 0.0
    and from the vector {0.0}, the third with the optimizer created, from
    0.55, each on the solver constructed just before. *)
Theorem main_is_synchronous :
  forall (L : Library) (s : lib_state L),
    existsb is_async (trace (run L main s)) = false /\
    (outcome (run L main s) = Returned tt ->
     exists vqe vqe_vec vqe_openqasm optimizer,
       constructed (trace (run L main s)) = [vqe; vqe_vec; vqe_openqasm] /\
       created (trace (run L main s)) = [optimizer] /\
       execute_requests (trace (run L main s)) =
         [ (vqe, None, ArgDouble 0.0%float);
           (vqe_vec, None, ArgVector [0.0%float]);
           (vqe_openqasm, Some optimizer, ArgDouble 0.55%float) ] /\
       List.length (execute_results (trace (run L main s))) = 3%nat).
Proof.
  intros L s. unfold constructed, created, execute_requests, execute_results.
  main_cases L s; quiet_tail; (split; [reflexivity | ]);
    intros Hout; try discriminate Hout.
  do 4 eexists. repeat split.
Qed.

Lemma main_is_synchronous_witness :
  existsb is_async (trace (run flat_qcor main Hybrid.initial)) = false /\
  List.length (execute_requests (trace (run flat_qcor main Hybrid.initial))) =
    3%nat.
Proof.
  destruct (main_is_synchronous flat_qcor Hybrid.initial) as [Hsync Hret].
  split; [exact Hsync | ].
  destruct (Hret eq_refl) as (v1 & v2 & v3 & o & _ & _ & Hreq & _).
  rewrite Hreq. reflexivity.
Defined.

(** ** The optimizer factory *)

(** In a run of [main] the one optimizer is created from nlopt-optimizer
    and nlopt-maxeval alone; there the gradient strategy is an option of
    the third solver's construction. *)
Lemma main_gives_gradient_strategy_to_the_solver :
  let t := trace (run flat_qcor main Hybrid.initial) in
  optimizer_requests t =
    [("nlopt", [("nlopt-optimizer", OptString "l-bfgs");
                ("nlopt-maxeval", OptInt 20)])] /\
  map (fun r => has_key "gradient-strategy" (snd r)) (optimizer_requests t) =
    [false] /\
  map (fun c => has_key "gradient-strategy" (snd c)) (constructions t) =
    [false; false; true].
Proof. vm_compute. repeat split. Qed.



(** ** Vector reads *)

(** C9: [ansatz_vec] reads [x[0]] and is undefined exactly on the empty
    vector; every vector [main] passes to [execute] is {0.0}, on which it
    is defined. A run of [main] in which every [execute] call returned a
    non-empty parameter vector reads no vector out of range; a run that
    does read out of range got an empty one. *)
Theorem vector_reads_in_bounds :
  (forall (q : qreg) (x : list float), ansatz_vec q x = None <-> x = []) /\
  (forall q : qreg, ansatz_vec q [0.0%float] <> None) /\
  (forall (L : Library) (s : lib_state L),
      Forall (fun req => forall v, snd req = ArgVector v -> v = [0.0%float])
             (execute_requests (trace (run L main s)))) /\
  (forall (L : Library) (s : lib_state L),
      forallb (fun r => nonempty (snd r))
              (execute_results (trace (run L main s))) = true ->
      outcome (run L main s) <> Undefined) /\
  (forall (L : Library) (s : lib_state L),
      outcome (run L main s) = Undefined ->
      exists e, last (execute_results (trace (run L main s))) (e, [e]) = (e, [])).
Proof.
  split; [exact ansatz_vec_defined | ]. split; [ | split; [ | split]].
  - intros q Hnone. discriminate Hnone.
  - intros L s. unfold execute_requests.
    main_cases L s; quiet_tail; repeat constructor;
      cbn; intros vec Hvec; try discriminate Hvec;
      injection Hvec as <-; reflexivity.
  - intros L s. unfold execute_results.
    main_cases L s; quiet_tail; intros Hne Hout;
      try discriminate Hout; discriminate Hne.
  - intros L s. unfold execute_results.
    main_cases L s; quiet_tail; intros Hout; try discriminate Hout;
      eexists; reflexivity.
Qed.

Lemma vector_reads_in_bounds_witness :
  outcome (run scripted main (0%nat, third_off)) <> Undefined.
Proof.
  apply (proj1 (proj2 (proj2 (proj2 vector_reads_in_bounds)))).
  vm_compute. reflexivity.
Defined.

(** ** The hybrid library: unique elements *)

Section Unique.

Context {A : Type} (eqb : A -> A -> bool).
Hypothesis eqb_spec : forall x y : A, eqb x y = true <-> x = y.

Lemma existsb_eqb_In (a : A) (l : list A) :
  existsb (eqb a) l = true <-> In a l.
Proof.
  rewrite existsb_exists. split.
  - intros (b & Hb & Hab). apply eqb_spec in Hab. subst b. exact Hb.
  - intros Ha. exists a. split; [exact Ha | ]. apply eqb_spec. reflexivity.
Qed.

Lemma In_unique (a : A) (l : list A) :
  In a (Hybrid.unique eqb l) <-> In a l.
Proof.
  induction l as [ | b l IH]; cbn; [tauto | ].
  destruct (existsb (eqb b) l) eqn:Hb; cbn; rewrite IH.
  - apply existsb_eqb_In in Hb. split; [tauto | ].
    intros [Hab | Ha]; [subst b | ]; assumption.
  - tauto.
Qed.

Lemma NoDup_unique (l : list A) : NoDup (Hybrid.unique eqb l).
Proof.
  induction l as [ | b l IH]; cbn; [constructor | ].
  destruct (existsb (eqb b) l) eqn:Hb; [exact IH | ].
  constructor; [ | exact IH].
  rewrite In_unique, <- existsb_eqb_In, Hb. discriminate.
Qed.

End Unique.

Lemma params_eqb_spec (p q : list float) :
  Hybrid.params_eqb p q = true <-> p = q.
Proof.
  revert q. induction p as [ | a p IH]; intros [ | b q]; cbn;
    try (split; [discriminate | discriminate]); [tauto | ].
  rewrite andb_true_iff, Leibniz.eqb_spec, IH. split.
  - intros [-> ->]. reflexivity.
  - intros Heq. injection Heq as -> ->. split; reflexivity.
Qed.

Lemma pair_eqb_spec (r s : float * list float) :
  Hybrid.pair_eqb r s = true <-> r = s.
Proof.
  destruct r as [e p], s as [e' p']. unfold Hybrid.pair_eqb. cbn.
  rewrite andb_true_iff, Leibniz.eqb_spec, params_eqb_spec. split.
  - intros [-> ->]. reflexivity.
  - intros Heq. injection Heq as -> ->. split; reflexivity.
Qed.

Lemma nth_error_set_nth {A : Type} (l : list A) (i : nat) (a b : A) :
  nth_error l i = Some b -> nth_error (Hybrid.set_nth l i a) i = Some a.
Proof.
  revert i. induction l as [ | c l IH]; intros [ | i]; cbn;
    try discriminate; auto.
Qed.

Lemma best_In (log : list (float * list float)) (r : float * list float) :
  Hybrid.best log = Some r -> In r log.
Proof.
  revert r. induction log as [ | r' log IH]; cbn; intros r Hr;
    [discriminate Hr | ].
  destruct (Hybrid.best log) as [b | ].
  - destruct (fst r' <? fst b)%float; injection Hr as <-; auto.
  - injection Hr as <-. auto.
Qed.

(** The order [<?] of [double]: no value is below itself, and below is
    transitive. *)
Lemma SFltb_irrefl (x : spec_float) : SFltb x x = false.
Proof.
  unfold SFltb, SFcompare.
  destruct x as [s | s | | s m e]; try destruct s; try reflexivity;
    rewrite Z.compare_refl; fold (Pos.compare m m); rewrite Pos.compare_refl;
    reflexivity.
Qed.

Lemma SFltb_trans (x y z : spec_float) :
  SFltb x y = true -> SFltb y z = true -> SFltb x z = true.
Proof.
  unfold SFltb, SFcompare.
  destruct x as [sx | sx | | sx mx ex], y as [sy | sy | | sy my ey],
    z as [sz | sz | | sz mz ez];
    try destruct sx; try destruct sy; try destruct sz;
    try discriminate; try reflexivity.
  all: fold (Pos.compare mx my); fold (Pos.compare my mz);
    fold (Pos.compare mx mz).
  all: destruct (Z.compare_spec ex ey), (Z.compare_spec ey ez),
    (Z.compare_spec ex ez); try lia; try discriminate; try reflexivity.
  all: destruct (Pos.compare_spec mx my), (Pos.compare_spec my mz),
    (Pos.compare_spec mx mz); cbn; try lia; try discriminate; try reflexivity.
Qed.

Lemma ltb_irrefl (x : float) : (x <? x)%float = false.
Proof. rewrite ltb_spec. apply SFltb_irrefl. Qed.

Lemma ltb_trans (x y z : float) :
  (x <? y)%float = true -> (y <? z)%float = true -> (x <? z)%float = true.
Proof. rewrite !ltb_spec. apply SFltb_trans. Qed.

(** No entry of a log has an energy below that of its best entry. *)
Lemma best_minimal (log : list (float * list float)) (b : float * list float) :
  Hybrid.best log = Some b ->
  forall r, In r log -> (fst r <? fst b)%float = false.
Proof.
  revert b. induction log as [ | r' log IH]; cbn; intros b Hb r Hr;
    [contradiction | ].
  destruct (Hybrid.best log) as [b' | ] eqn:Hbest.
  - destruct (fst r' <? fst b')%float eqn:Hlt; injection Hb as <-.
    + destruct Hr as [<- | Hr]; [apply ltb_irrefl | ].
      destruct (fst r <? fst r')%float eqn:Hrr'; [ | reflexivity].
      rewrite <- (IH b' eq_refl r Hr). symmetry.
      exact (ltb_trans _ _ _ Hrr' Hlt).
    + destruct Hr as [<- | Hr]; [exact Hlt | exact (IH b' eq_refl r Hr)].
  - injection Hb as <-. destruct Hr as [<- | Hr]; [apply ltb_irrefl | ].
    destruct log as [ | r'' log]; [contradiction | ].
    cbn in Hbest. destruct (Hybrid.best log) as [b'' | ];
      [destruct (fst r'' <? fst b'')%float | ]; discriminate Hbest.
Qed.

Lemma best_defined (log : list (float * list float)) :
  log <> [] -> exists r, Hybrid.best log = Some r.
Proof.
  destruct log as [ | r' log]; [congruence | ]. intros _. cbn.
  destruct (Hybrid.best log) as [b | ]; [ | eauto].
  destruct (fst r' <? fst b)%float; eauto.
Qed.

(** ** The hybrid library: the optimization loop *)

Section Optimization.

Variable estimate : Circuit -> Obs.Operator -> float.
Variable update :
  Hybrid.OptimizerObject -> HeterogeneousMap -> list (float * list float) ->
  option (list float).
Variable v : Hybrid.VQEObject.
Variable opt : Hybrid.OptimizerObject.

Let energy_at := Hybrid.energy_at estimate v.
Let optimize := Hybrid.optimize estimate update.

(** Every entry that the loop adds pairs parameters with the energy
    estimated at them. *)
Lemma optimize_sound (fuel : nat) :
  forall x log log',
    optimize fuel v opt x log = Some log' ->
    (forall r, In r log -> energy_at (snd r) = Some (fst r)) ->
    forall r, In r log' -> energy_at (snd r) = Some (fst r).
Proof.
  induction fuel as [ | fuel IH]; intros x log log' Hopt Hlog; cbn in Hopt.
  - injection Hopt as <-. exact Hlog.
  - fold energy_at in Hopt.
    destruct (energy_at x) as [e | ] eqn:He; [ | discriminate Hopt].
    assert (Hlog' : forall r, In r ((e, x) :: log) ->
                              energy_at (snd r) = Some (fst r)).
    { intros r [<- | Hr]; [exact He | exact (Hlog r Hr)]. }
    destruct (update opt (Hybrid.options v) ((e, x) :: log)) as [x' | ].
    + exact (IH x' _ log' Hopt Hlog').
    + injection Hopt as <-. exact Hlog'.
Qed.

(** With fuel left, the loop adds at least one entry. *)
Lemma optimize_nonempty (fuel : nat) :
  forall x log log',
    optimize fuel v opt x log = Some log' ->
    (0 < fuel)%nat \/ log <> [] -> log' <> [].
Proof.
  induction fuel as [ | fuel IH]; intros x log log' Hopt Hne; cbn in Hopt.
  - injection Hopt as <-. destruct Hne as [Hlt | Hne]; [lia | exact Hne].
  - destruct (Hybrid.energy_at estimate v x) as [e | ]; [ | discriminate Hopt].
    destruct (update opt (Hybrid.options v) ((e, x) :: log)) as [x' | ].
    + apply (IH x' _ log' Hopt). right. discriminate.
    + injection Hopt as <-. discriminate.
Qed.

(** The loop ends with a log when the kernel is defined on the vectors of
    the dimension it starts from and the updates keep that dimension. *)
Lemma optimize_total (n : nat) :
  (forall p, List.length p = n -> energy_at p <> None) ->
  (forall log x',
      (forall r, In r log -> List.length (snd r) = n) ->
      update opt (Hybrid.options v) log = Some x' -> List.length x' = n) ->
  forall fuel x log,
    List.length x = n ->
    (forall r, In r log -> List.length (snd r) = n) ->
    exists log', optimize fuel v opt x log = Some log'.
Proof.
  intros Hdef Hdim.
  induction fuel as [ | fuel IH]; intros x log Hx Hlog; cbn.
  - eauto.
  - fold energy_at.
    destruct (energy_at x) as [e | ] eqn:He; [ | elim (Hdef x Hx He)].
    assert (Hlog' : forall r, In r ((e, x) :: log) ->
                              List.length (snd r) = n).
    { intros r [<- | Hr]; [exact Hx | exact (Hlog r Hr)]. }
    destruct (update opt (Hybrid.options v) ((e, x) :: log)) as [x' | ] eqn:Hu.
    + apply IH; [exact (Hdim _ x' Hlog' Hu) | exact Hlog'].
    + eauto.
Qed.

End Optimization.

(** ** The hybrid library: [execute] and the accessors *)

(** Whatever [execute] returns is the entry of lowest energy of the log of
    its optimization, and the solver keeps that log. *)
Lemma execute_sound :
  forall estimate update default_optimizer default_maxeval
         (s : Hybrid.State) (v : VQE) (o : option Optimizer) (a : Args)
         (energy : float) (params : list float) (s' : Hybrid.State),
    lib_call (Hybrid.qcor estimate update default_optimizer default_maxeval)
             (execute v o a) s = Some ((energy, params), s') ->
    exists obj opt log,
      nth_error (Hybrid.solvers s) (vqe_id v) = Some obj /\
      Hybrid.optimizer_for default_optimizer s o = Some opt /\
      Hybrid.optimize estimate update (Hybrid.maxeval default_maxeval opt)
                      obj opt (Hybrid.initial_parameters a) [] = Some log /\
      Hybrid.best log = Some (energy, params) /\
      In (energy, params) log /\
      (forall r, In r log -> (fst r <? energy)%float = false) /\
      Hybrid.energy_at estimate obj params = Some energy /\
      nth_error (Hybrid.solvers s') (vqe_id v) =
        Some (Hybrid.with_evaluations obj log).
Proof.
  intros estimate update dopt dmax s v o a energy params s' Hcall.
  cbn in Hcall. unfold Hybrid.VQE_execute in Hcall.
  destruct (nth_error (Hybrid.solvers s) (vqe_id v)) as [obj | ] eqn:Hobj;
    [ | discriminate Hcall].
  destruct (Hybrid.optimizer_for dopt s o) as [opt | ] eqn:Hopt;
    [ | discriminate Hcall].
  destruct (Hybrid.optimize estimate update (Hybrid.maxeval dmax opt) obj opt
              (Hybrid.initial_parameters a) []) as [log | ] eqn:Hlog;
    [ | discriminate Hcall].
  destruct (Hybrid.best log) as [b | ] eqn:Hbest; [ | discriminate Hcall].
  injection Hcall as -> <-.
  pose proof (best_In _ _ Hbest) as Hin.
  exists obj, opt, log. repeat split; try assumption.
  - exact (best_minimal log (energy, params) Hbest).
  - apply (optimize_sound estimate update obj opt _ _ _ _ Hlog
             (fun r (Hr : In r []) => match Hr with end) (energy, params) Hin).
  - cbn. apply (nth_error_set_nth _ _ _ _ Hobj).
Qed.

(** [execute] does return when the solver and the optimizer exist, the
    optimizer may evaluate at least once, the kernel is defined on the
    vectors of the dimension of the initial parameters, and the updates
    keep that dimension. *)
Lemma execute_total :
  forall estimate update default_optimizer default_maxeval
         (s : Hybrid.State) (v : VQE) (o : option Optimizer) (a : Args)
         (obj : Hybrid.VQEObject) (opt : Hybrid.OptimizerObject),
    nth_error (Hybrid.solvers s) (vqe_id v) = Some obj ->
    Hybrid.optimizer_for default_optimizer s o = Some opt ->
    (0 < Hybrid.maxeval default_maxeval opt)%nat ->
    (forall p,
        List.length p = List.length (Hybrid.initial_parameters a) ->
        Hybrid.energy_at estimate obj p <> None) ->
    (forall log x',
        (forall r, In r log ->
                   List.length (snd r) = List.length (Hybrid.initial_parameters a)) ->
        update opt (Hybrid.options obj) log = Some x' ->
        List.length x' = List.length (Hybrid.initial_parameters a)) ->
    exists (energy : float) (params : list float) (s' : Hybrid.State),
      lib_call (Hybrid.qcor estimate update default_optimizer default_maxeval)
               (execute v o a) s = Some ((energy, params), s').
Proof.
  intros estimate update dopt dmax s v o a obj opt Hobj Hopt Hfuel Hdef Hdim.
  destruct (optimize_total estimate update obj opt _ Hdef Hdim
              (Hybrid.maxeval dmax opt) (Hybrid.initial_parameters a) []
              eq_refl) as [log Hlog].
  { intros r []. }
  assert (Hne : log <> []).
  { apply (optimize_nonempty estimate update obj opt _ _ _ _ Hlog). left.
    exact Hfuel. }
  destruct (best_defined log Hne) as [[energy params] Hbest].
  exists energy, params. eexists.
  cbn. unfold Hybrid.VQE_execute. rewrite Hobj, Hopt, Hlog, Hbest.
  reflexivity.
Qed.

(** C4: [execute], without an optimizer or with one as its first argument,
    returns a pair (energy, parameters): the first component is the energy
    estimated at the second, and the pair is an evaluation of the
    optimization run from the initial parameters, none of whose
    evaluations has a lower energy; the solver keeps the evaluations. It
    returns such a pair for every initial-parameter argument on which the
    kernel is defined along the optimization. *)
Theorem execute_returns_energy_and_parameters :
  forall estimate update default_optimizer default_maxeval
         (s : Hybrid.State) (v : VQE) (o : option Optimizer) (a : Args),
    (forall (energy : float) (params : list float) (s' : Hybrid.State),
        lib_call (Hybrid.qcor estimate update default_optimizer default_maxeval)
                 (execute v o a) s = Some ((energy, params), s') ->
        exists obj opt log,
          nth_error (Hybrid.solvers s) (vqe_id v) = Some obj /\
          Hybrid.optimizer_for default_optimizer s o = Some opt /\
          Hybrid.optimize estimate update (Hybrid.maxeval default_maxeval opt)
                          obj opt (Hybrid.initial_parameters a) [] = Some log /\
          Hybrid.best log = Some (energy, params) /\
          In (energy, params) log /\
          (forall r, In r log -> (fst r <? energy)%float = false) /\
          Hybrid.energy_at estimate obj params = Some energy /\
          nth_error (Hybrid.solvers s') (vqe_id v) =
            Some (Hybrid.with_evaluations obj log)) /\
    (forall (obj : Hybrid.VQEObject) (opt : Hybrid.OptimizerObject),
        nth_error (Hybrid.solvers s) (vqe_id v) = Some obj ->
        Hybrid.optimizer_for default_optimizer s o = Some opt ->
        (0 < Hybrid.maxeval default_maxeval opt)%nat ->
        (forall p,
            List.length p = List.length (Hybrid.initial_parameters a) ->
            Hybrid.energy_at estimate obj p <> None) ->
        (forall log x',
            (forall r, In r log ->
                       List.length (snd r) =
                       List.length (Hybrid.initial_parameters a)) ->
            update opt (Hybrid.options obj) log = Some x' ->
            List.length x' = List.length (Hybrid.initial_parameters a)) ->
        exists (energy : float) (params : list float) (s' : Hybrid.State),
          lib_call (Hybrid.qcor estimate update default_optimizer
                                default_maxeval)
                   (execute v o a) s = Some ((energy, params), s') /\
          Hybrid.energy_at estimate obj params = Some energy).
Proof.
  intros estimate update dopt dmax s v o a. split.
  - apply execute_sound.
  - intros obj opt Hobj Hopt Hfuel Hdef Hdim.
    destruct (execute_total estimate update dopt dmax s v o a obj opt
                Hobj Hopt Hfuel Hdef Hdim) as (energy & params & s' & Hcall).
    exists energy, params, s'. split; [exact Hcall | ].
    destruct (execute_sound _ _ _ _ _ _ _ _ _ _ _ Hcall)
      as (obj' & _ & _ & Hobj' & _ & _ & _ & _ & _ & He & _).
    rewrite Hobj in Hobj'. injection Hobj' as <-. exact He.
Qed.

(** The solver made from [ansatz], run from 0.0 by the stepping optimizer
    on the parabola backend: [execute] returns a pair, the energy at its
    parameters. *)
Lemma execute_returns_energy_and_parameters_witness :
  exists (energy : float) (params : list float) (s' : Hybrid.State),
    lib_call sweep_qcor (execute {| vqe_id := 0 |} None (ArgDouble 0.0%float))
             one_solver = Some ((energy, params), s') /\
    Hybrid.energy_at parabola
      {| Hybrid.kernel := KernelDouble ansatz; Hybrid.observable := H;
         Hybrid.options := []; Hybrid.evaluations := [] |} params =
      Some energy.
Proof.
  apply (proj2 (execute_returns_energy_and_parameters parabola sweep plain_nlopt 20
                  one_solver {| vqe_id := 0 |} None (ArgDouble 0.0%float))
               _ plain_nlopt).
  - reflexivity.
  - reflexivity.
  - vm_compute. lia.
  - intros [ | x [ | y p]] Hp; try discriminate Hp. discriminate.
  - intros [ | [e x] log] x' Hlog Hu; [discriminate Hu | ].
    injection Hu as <-. rewrite length_map. apply (Hlog (e, x)). left.
    reflexivity.
Defined.

(** What the accessors return once [execute] has returned. *)
Lemma accessors_after_execute :
  forall estimate update default_optimizer default_maxeval
         (s : Hybrid.State) (v : VQE) (o : option Optimizer) (a : Args)
         (r : float * list float) (s' : Hybrid.State),
    lib_call (Hybrid.qcor estimate update default_optimizer default_maxeval)
             (execute v o a) s = Some (r, s') ->
    exists obj opt log ps es,
      nth_error (Hybrid.solvers s) (vqe_id v) = Some obj /\
      Hybrid.optimizer_for default_optimizer s o = Some opt /\
      Hybrid.optimize estimate update (Hybrid.maxeval default_maxeval opt)
                      obj opt (Hybrid.initial_parameters a) [] = Some log /\
      lib_call (Hybrid.qcor estimate update default_optimizer default_maxeval)
               (get_unique_parameters v) s' = Some (ps, s') /\
      lib_call (Hybrid.qcor estimate update default_optimizer default_maxeval)
               (get_unique_energies v) s' = Some (es, s') /\
      NoDup ps /\
      NoDup es /\
      (forall p, In p ps <-> exists e, In (e, p) log) /\
      (forall e p, In (e, p) es <-> In (e, p) log) /\
      (forall e p, In (e, p) es ->
                   In p ps /\ Hybrid.energy_at estimate obj p = Some e).
Proof.
  intros estimate update dopt dmax s v o a r s' Hcall.
  cbn in Hcall. unfold Hybrid.VQE_execute in Hcall.
  destruct (nth_error (Hybrid.solvers s) (vqe_id v)) as [obj | ] eqn:Hobj;
    [ | discriminate Hcall].
  destruct (Hybrid.optimizer_for dopt s o) as [opt | ] eqn:Hopt;
    [ | discriminate Hcall].
  destruct (Hybrid.optimize estimate update (Hybrid.maxeval dmax opt) obj opt
              (Hybrid.initial_parameters a) []) as [log | ] eqn:Hlog;
    [ | discriminate Hcall].
  destruct (Hybrid.best log) as [b | ]; [ | discriminate Hcall].
  injection Hcall as _ <-.
  exists obj, opt, log.
  exists (Hybrid.unique Hybrid.params_eqb (map snd log)).
  exists (Hybrid.unique Hybrid.pair_eqb log).
  assert (Hps : forall p, In p (Hybrid.unique Hybrid.params_eqb (map snd log))
                          <-> exists e, In (e, p) log).
  { intros p. rewrite (In_unique _ params_eqb_spec), in_map_iff. split.
    - intros ([e p'] & Hp & Hin). cbn in Hp. subst p'. eauto.
    - intros [e Hin]. exists (e, p). auto. }
  assert (Hes : forall e p, In (e, p) (Hybrid.unique Hybrid.pair_eqb log)
                            <-> In (e, p) log).
  { intros e p. apply (In_unique _ pair_eqb_spec). }
  repeat split; try reflexivity; try assumption.
  - cbn. unfold Hybrid.VQE_get_unique_parameters. cbn.
    rewrite (nth_error_set_nth _ _ _ _ Hobj). reflexivity.
  - cbn. unfold Hybrid.VQE_get_unique_energies. cbn.
    rewrite (nth_error_set_nth _ _ _ _ Hobj). reflexivity.
  - apply (NoDup_unique _ params_eqb_spec).
  - apply (NoDup_unique _ pair_eqb_spec).
  - apply Hps.
  - apply Hps.
  - apply Hes.
  - apply Hes.
  - apply Hps. exists e. apply Hes. assumption.
  - apply (optimize_sound estimate update obj opt _ _ _ _ Hlog
             (fun r (Hr : In r []) => match Hr with end) (e, p)).
    apply Hes. assumption.
Qed.


(** A normal run of [main] against a library whose accessors, after an
    [execute], return consistent lists: the pairs that the last loop of
    [main] prints have their parameters among [all_params]. *)
Lemma main_reports (L : Library) (s : lib_state L) :
  (forall v o a s0 r s1,
      lib_call L (execute v o a) s0 = Some (r, s1) ->
      exists ps es,
        lib_call L (get_unique_parameters v) s1 = Some (ps, s1) /\
        lib_call L (get_unique_energies v) s1 = Some (es, s1) /\
        NoDup ps /\
        forall e p, In (e, p) es -> In p ps) ->
  outcome (run L main s) = Returned tt ->
  exists all_params all_energies_and_params,
    parameter_reports (trace (run L main s)) = [all_params] /\
    energy_reports (trace (run L main s)) = [all_energies_and_params] /\
    NoDup all_params /\
    forall e p, In (e, p) all_energies_and_params -> In p all_params.
Proof.
  intros Hacc. unfold parameter_reports, energy_reports.
  main_cases L s; quiet_tail; intros Hout; try discriminate Hout.
  match goal with
  | Hex : lib_call L (execute ?v (Some _) _) _ = Some (_, ?s1),
    Hps : lib_call L (get_unique_parameters ?v) ?s1 = Some (_, _),
    Hes : lib_call L (get_unique_energies ?v) _ = Some (_, _) |- _ =>
      destruct (Hacc _ _ _ _ _ _ Hex) as (ps & es & Hps' & Hes' & Hnd & Hin);
      rewrite Hps' in Hps; injection Hps as <- <-;
      rewrite Hes' in Hes; injection Hes as <- _
  end.
  exists ps, es. repeat split; assumption.
Qed.

Lemma main_reports_consistent :
  forall estimate update default_optimizer default_maxeval (s : Hybrid.State),
    outcome (run (Hybrid.qcor estimate update default_optimizer default_maxeval)
                 main s) = Returned tt ->
    exists all_params all_energies_and_params,
      parameter_reports
        (trace (run (Hybrid.qcor estimate update default_optimizer
                                 default_maxeval) main s)) = [all_params] /\
      energy_reports
        (trace (run (Hybrid.qcor estimate update default_optimizer
                                 default_maxeval) main s)) =
        [all_energies_and_params] /\
      NoDup all_params /\
      forall e p, In (e, p) all_energies_and_params -> In p all_params.
Proof.
  intros estimate update dopt dmax s.
  apply (main_reports (Hybrid.qcor estimate update dopt dmax)).
  intros v o a s0 r s1 Hex.
  destruct (accessors_after_execute _ _ _ _ _ _ _ _ _ _ Hex)
    as (obj & opt & log & ps & es & _ & _ & _ & Hps & Hes & Hnd & _ &
        _ & _ & Hin).
  exists ps, es. repeat split; try assumption.
  intros e p Hep. exact (proj1 (Hin e p Hep)).
Qed.

(** C5: after an [execute] call has returned, [get_unique_parameters]
    returns, without repetition, the parameter vectors evaluated during
    that optimization, and [get_unique_energies] returns, without
    repetition, the (energy, parameters) pairs of its evaluations; each
    pair holds the energy estimated at its parameters, and its parameters
    are among those that [get_unique_parameters] returns. So it is for
    the two lists that a normal run of [main] asks of its third solver. *)
Theorem unique_parameters_and_energies :
  forall estimate update default_optimizer default_maxeval,
    (forall (s : Hybrid.State) (v : VQE) (o : option Optimizer) (a : Args)
            (r : float * list float) (s' : Hybrid.State),
        lib_call (Hybrid.qcor estimate update default_optimizer default_maxeval)
                 (execute v o a) s = Some (r, s') ->
        exists obj opt log ps es,
          nth_error (Hybrid.solvers s) (vqe_id v) = Some obj /\
          Hybrid.optimizer_for default_optimizer s o = Some opt /\
          Hybrid.optimize estimate update (Hybrid.maxeval default_maxeval opt)
                          obj opt (Hybrid.initial_parameters a) [] = Some log /\
          lib_call (Hybrid.qcor estimate update default_optimizer
                                default_maxeval)
                   (get_unique_parameters v) s' = Some (ps, s') /\
          lib_call (Hybrid.qcor estimate update default_optimizer
                                default_maxeval)
                   (get_unique_energies v) s' = Some (es, s') /\
          NoDup ps /\
          NoDup es /\
          (forall p, In p ps <-> exists e, In (e, p) log) /\
          (forall e p, In (e, p) es <-> In (e, p) log) /\
          (forall e p, In (e, p) es ->
                       In p ps /\ Hybrid.energy_at estimate obj p = Some e)) /\
    (forall s : Hybrid.State,
        outcome (run (Hybrid.qcor estimate update default_optimizer
                                  default_maxeval) main s) = Returned tt ->
        exists all_params all_energies_and_params,
          parameter_reports
            (trace (run (Hybrid.qcor estimate update default_optimizer
                                     default_maxeval) main s)) = [all_params] /\
          energy_reports
            (trace (run (Hybrid.qcor estimate update default_optimizer
                                     default_maxeval) main s)) =
            [all_energies_and_params] /\
          NoDup all_params /\
          forall e p, In (e, p) all_energies_and_params -> In p all_params).
Proof.
  intros estimate update dopt dmax. split.
  - apply accessors_after_execute.
  - apply main_reports_consistent.
Qed.

Lemma unique_parameters_and_energies_witness :
  (exists obj opt log ps es,
      nth_error (Hybrid.solvers one_solver) 0 = Some obj /\
      Hybrid.optimizer_for plain_nlopt one_solver None = Some opt /\
      Hybrid.optimize parabola sweep (Hybrid.maxeval 20 opt) obj opt
        (Hybrid.initial_parameters (ArgDouble 0.0%float)) [] = Some log /\
      lib_call sweep_qcor (get_unique_parameters {| vqe_id := 0 |})
               one_solver_run = Some (ps, one_solver_run) /\
      lib_call sweep_qcor (get_unique_energies {| vqe_id := 0 |})
               one_solver_run = Some (es, one_solver_run) /\
      NoDup ps /\
      NoDup es /\
      (forall p, In p ps <-> exists e, In (e, p) log) /\
      (forall e p, In (e, p) es <-> In (e, p) log) /\
      (forall e p, In (e, p) es ->
                   In p ps /\ Hybrid.energy_at parabola obj p = Some e)) /\
  (exists all_params all_energies_and_params,
      parameter_reports (trace (run sweep_qcor main Hybrid.initial)) =
        [all_params] /\
      energy_reports (trace (run sweep_qcor main Hybrid.initial)) =
        [all_energies_and_params] /\
      NoDup all_params /\
      forall e p, In (e, p) all_energies_and_params -> In p all_params).
Proof.
  split.
  - eapply (proj1 (unique_parameters_and_energies parabola sweep plain_nlopt 20)
              one_solver {| vqe_id := 0 |} None (ArgDouble 0.0%float)).
    vm_compute. reflexivity.
  - apply (proj2 (unique_parameters_and_energies parabola sweep plain_nlopt 20)
             Hybrid.initial).
    vm_compute. reflexivity.
Defined.

(** * Further properties of the example *)

(** ** The kernels and their register *)


(** X2: [ansatz_vec] uses the first entry of its parameter vector and no
    other: on two vectors with the same first entry, or both empty, it
    gives the same result. *)
Theorem ansatz_vec_uses_first_entry :
  forall (q : qreg) (x y : list float),
    hd_error x = hd_error y -> ansatz_vec q x = ansatz_vec q y.
Proof.
  intros q [ | x0 x] [ | y0 y] Hhd; try discriminate Hhd; [reflexivity | ].
  injection Hhd as <-. reflexivity.
Qed.

Lemma ansatz_vec_uses_first_entry_witness :
  ansatz_vec {| qreg_name := "q"; qreg_size := 2 |} [0.5%float; 0.25%float] =
  ansatz_vec {| qreg_name := "q"; qreg_size := 2 |} [0.5%float].
Proof. apply ansatz_vec_uses_first_entry. reflexivity. Defined.

(** ** The tolerance test *)

Lemma SFeqb_refl (x : spec_float) : x <> S754_nan -> SFeqb x x = true.
Proof.
  unfold SFeqb, SFcompare.
  destruct x as [s | s | | s m e]; try destruct s; try reflexivity;
    try congruence; intros _;
    rewrite Z.compare_refl; fold (Pos.compare m m); rewrite Pos.compare_refl;
    reflexivity.
Qed.

Lemma tolerance_constants :
  exists m1 e1 m2 e2,
    Prim2SF 1.74886%float = S754_finite false m1 e1 /\
    Prim2SF 0.1%float = S754_finite false m2 e2 /\
    Prim2SF infinity = S754_infinity false.
Proof. vm_compute. do 4 eexists. repeat split. Qed.

(** An energy within the tolerance is a finite number. *)
Lemma within_tolerance_finite (e : float) :
  within_tolerance e = true -> is_finite e = true.
Proof.
  destruct tolerance_constants as (m1 & e1 & m2 & e2 & Hc & Ht & Hi).
  unfold within_tolerance, is_finite, is_nan, is_infinity.
  rewrite ltb_spec, abs_spec, add_spec, !eqb_spec, abs_spec, Hc, Ht, Hi.
  destruct (Prim2SF e) as [s | s | | s m ex] eqn:He.
  - intros _. destruct s; reflexivity.
  - destruct s; intros Hlt; discriminate Hlt.
  - intros Hlt; discriminate Hlt.
  - intros _. rewrite SFeqb_refl by discriminate. destruct s; reflexivity.
Qed.

(** X3: the tolerance test of [main] fails on NaN and on the infinities;
    so a run of [main] that returns got finite energies from its first two
    solvers, and a first energy that is not finite aborts it. *)
Theorem checked_energies_are_finite :
  forall (L : Library) (s : lib_state L),
    (outcome (run L main s) = Returned tt ->
     exists e1 p1 e2 p2 r3,
       execute_results (trace (run L main s)) = [(e1, p1); (e2, p2); r3] /\
       is_finite e1 = true /\
       is_finite e2 = true) /\
    (forall e p,
        nth_error (execute_results (trace (run L main s))) 0 = Some (e, p) ->
        is_finite e = false ->
        outcome (run L main s) = Aborted \/ outcome (run L main s) = Undefined).
Proof.
  intros L s. split.
  - intros Hout.
    destruct (main_returned L s Hout)
      as (e1 & p1 & e2 & p2 & e3 & p3 & Hres & _ & Ht1 & Ht2).
    exists e1, p1, e2, p2, (e3, p3).
    split; [exact Hres | ].
    split; apply within_tolerance_finite; assumption.
  - unfold execute_results.
    main_cases L s; quiet_tail; intros e p Hres Hnf;
      try discriminate Hres; auto;
      injection Hres as <- <-;
      match goal with
      | Hb : (abs (_ + _) <? _)%float = true |- _ =>
          apply within_tolerance_finite in Hb; congruence
      end.
Qed.

Lemma checked_energies_are_finite_witness :
  exists e1 p1 e2 p2 r3,
    execute_results (trace (run scripted main (0%nat, third_off))) =
      [(e1, p1); (e2, p2); r3] /\
    is_finite e1 = true /\
    is_finite e2 = true.
Proof.
  apply (proj1 (checked_energies_are_finite scripted (0%nat, third_off))).
  vm_compute. reflexivity.
Defined.

(** ** How a run of [main] ends *)

(** X4: how a run of [main] ends is read off its trace. It is aborted
    exactly when a check was false, it ends in a throw exactly when a call
    threw, it reads out of range exactly when an [execute] returned an
    empty parameter vector, and it returns exactly when three checks were
    evaluated, all true, and no call threw. *)
Theorem main_outcome :
  forall (L : Library) (s : lib_state L),
    let r := run L main s in
    (outcome r = Aborted <-> In false (checks (trace r))) /\
    (outcome r = Thrown <-> existsb is_throw (trace r) = true) /\
    (outcome r = Undefined <->
     existsb (fun x => negb (nonempty (snd x))) (execute_results (trace r)) =
       true) /\
    (outcome r = Returned tt <->
     checks (trace r) = [true; true; true] /\
     existsb is_throw (trace r) = false).
Proof.
  intros L s. unfold checks, execute_results.
  main_cases L s; quiet_tail; repeat split;
    try reflexivity; try discriminate; try tauto;
    try (intros Hyp; try discriminate Hyp; try reflexivity;
         repeat (destruct Hyp as [Hyp | Hyp]; try discriminate Hyp);
         try contradiction; try (destruct Hyp as [Hyp _]; discriminate Hyp);
         try (destruct Hyp as [_ Hyp]; discriminate Hyp)).
Qed.

Lemma main_outcome_witness :
  outcome (run scripted main (0%nat, second_off)) = Aborted.
Proof.
  apply (proj1 (main_outcome scripted (0%nat, second_off))).
  vm_compute. right. left. reflexivity.
Defined.

(** X5: the third check of [main] never fails, as it tests again the
    energy of the second solver. A run is aborted only by the first or the
    second check: at most two [execute] calls have returned, the energy of
    the last one is outside the tolerance, and the last statement printed
    is the one showing that result. *)
Theorem main_aborts_on_first_two_only :
  forall (L : Library) (s : lib_state L),
    let r := run L main s in
    (forall b, nth_error (checks (trace r)) 2 = Some b -> b = true) /\
    (outcome r = Aborted ->
     exists e p,
       last (execute_results (trace r)) (0%float, []) = (e, p) /\
       within_tolerance e = false /\
       (List.length (execute_results (trace r)) <= 2)%nat /\
       result_line (e, p) = [last (output (trace r)) []]).
Proof.
  intros L s. unfold checks, execute_results, output, within_tolerance.
  main_cases L s; quiet_tail; split;
    try (intros b Hb; try discriminate Hb; injection Hb as <-; reflexivity);
    intros Hout; try discriminate Hout;
    do 2 eexists; (split; [reflexivity | ]); cbn;
    (split; [eassumption | ]); split; try reflexivity; lia.
Qed.

Lemma main_aborts_on_first_two_only_witness :
  exists e p,
    last (execute_results (trace (run scripted main (0%nat, second_off))))
         (0%float, []) = (e, p) /\
    within_tolerance e = false /\
    (List.length
       (execute_results (trace (run scripted main (0%nat, second_off)))) <= 2)%nat /\
    result_line (e, p) =
      [last (output (trace (run scripted main (0%nat, second_off)))) []].
Proof.
  apply (proj2 (main_aborts_on_first_two_only scripted (0%nat, second_off))).
  vm_compute. reflexivity.
Defined.

(** ** The objects of [main] *)

(** X6: whatever the library answers, [main] runs the solvers it has
    constructed, in the order of their construction, and no other object:
    the solver of its i-th [execute] call is the i-th solver constructed,
    an optimizer given to [execute] is the one created, and the accessors
    are called on the third solver constructed. *)
Theorem main_uses_its_objects :
  forall (L : Library) (s : lib_state L),
    let t := trace (run L main s) in
    map (fun req => fst (fst req)) (execute_requests t) =
      firstn (List.length (execute_requests t)) (constructed t) /\
    Forall (fun req => forall o, snd (fst req) = Some o -> created t = [o])
           (execute_requests t) /\
    Forall (fun v => nth_error (constructed t) 2 = Some v)
           (accessor_targets t).
Proof.
  intros L s. unfold execute_requests, constructed, created, accessor_targets.
  main_cases L s; quiet_tail; (split; [reflexivity | ]); split;
    repeat constructor;
    cbn; intros opt Hopt; try discriminate Hopt;
    injection Hopt as <-; reflexivity.
Qed.

(** ** What [main] prints *)

Section Printing.

Variable L : Library.

Lemma prints_cout (items : list OutItem) : prints L (cout items) [items].
Proof. intros s. cbn. auto. Qed.

Lemma prints_bind (p : Prog unit) (f : unit -> Prog unit)
      (a b : list (list OutItem)) :
  prints L p a -> (forall u, prints L (f u) b) ->
  prints L (Prog_bind p f) (a ++ b).
Proof.
  intros Hp Hf s.
  destruct (Hp s) as (Ht & Ho & Hs).
  pose proof (run_bind L p f s) as Hb. rewrite Ho in Hb. cbn in Hb.
  destruct Hb as (Hbt & Hbo & Hbf). rewrite Hs in *.
  destruct (Hf tt s) as (Ht' & Ho' & Hs').
  rewrite Hbt, Hbo, Hbf, Ht, Ht', map_app. auto.
Qed.

Lemma prints_for_each {A : Type} (l : list A) (body : A -> Prog unit)
      (g : A -> list (list OutItem)) :
  (forall a, prints L (body a) (g a)) ->
  prints L (for_each l body) (flat_map g l).
Proof.
  intros Hbody. induction l as [ | a l IH]; cbn.
  - intros s. cbn. auto.
  - apply prints_bind; auto.
Qed.

Lemma flat_map_single {A B : Type} (f : A -> B) (l : list A) :
  flat_map (fun a => [f a]) l = map f l.
Proof. induction l as [ | a l IH]; cbn; [ | rewrite IH]; reflexivity. Qed.

Lemma prints_print_energies (l : list (float * list float)) :
  prints L (print_energies l) (energy_lines l).
Proof.
  unfold print_energies, energy_lines. apply prints_for_each. intros a.
  unfold energy_line.
  apply (prints_bind _ _ [_] _); [apply prints_cout | intros _].
  apply prints_bind; [ | intros _; apply prints_cout].
  rewrite <- flat_map_single. apply prints_for_each. intros p.
  apply prints_cout.
Qed.

End Printing.

Lemma cout_lines_only (lines : list (list OutItem)) :
  forallb is_cout (map (fun items => EObs (Cout items)) lines) = true.
Proof. induction lines as [ | i lines IH]; cbn; auto. Qed.

Lemma output_of_lines (lines : list (list OutItem)) :
  flat_map cout_items (map (fun items => EObs (Cout items)) lines) = lines.
Proof.
  induction lines as [ | i lines IH]; cbn; [ | rewrite IH]; reflexivity.
Qed.

Lemma energy_lines_cons (a : float * list float) (l : list (float * list float)) :
  energy_lines (a :: l) =
    [OutStr "E: Pvec = "; OutDouble (fst a); OutStr ": [ "]
    :: map (fun p => [OutDouble p; OutStr " "]) (snd a)
    ++ [OutStr "]"; OutEndl] :: energy_lines l.
Proof.
  unfold energy_lines. cbn. rewrite <- app_assoc. reflexivity.
Qed.

Lemma no_result_line_in_loop (l : list (float * list float)) :
  filter is_result_line (energy_lines l) = [].
Proof.
  induction l as [ | a l IH]; [reflexivity | ].
  rewrite energy_lines_cons. cbn. rewrite filter_app. cbn. rewrite IH.
  rewrite app_nil_r.
  induction (snd a) as [ | p ps IHp]; cbn; auto.
Qed.

(** [main_lines L s] follows [main] as [main_cases L s] does, and keeps
    what the loop at the end prints. *)
Ltac main_step_lines L :=
  lazymatch goal with
  | |- context [lib_call L ?c ?s] =>
      destruct (lib_call L c s) as [[? ?] | ] eqn:?
  | |- context [run L (let (_, _) := ?r in _) _] => destruct r
  | |- context [subscript ?v 0] => destruct v
  | |- context [if ?b then _ else _] => destruct b eqn:?
  | |- context [run L (print_energies ?l) ?s] =>
      let Ho := fresh "Hloop" in
      let Hf := fresh "Hfinal" in
      let Ht := fresh "Htrace" in
      let Hc := fresh "Hcout" in
      let Hl := fresh "Hlines" in
      destruct (prints_print_energies L l s) as (Ht & Ho & Hf);
      rewrite ?Ht, ?Ho, ?Hf; clear Ht Ho Hf;
      pose proof (cout_lines_only (energy_lines l)) as Hc;
      pose proof (output_of_lines (energy_lines l)) as Hl;
      revert Hc Hl;
      generalize (map (fun items => EObs (Cout items)) (energy_lines l));
      intros ? Hc Hl
  end; sim.

Ltac main_lines L s :=
  cbv zeta;
  pattern (run L main s);
  lazymatch goal with
  | |- ?P _ =>
      let Q := fresh "Q" in
      let HQ := fresh "HQ" in
      remember P as Q eqn:HQ;
      unfold main; sim; repeat main_step_lines L; subst Q; sim
  end.

(** X7: in every run of [main] that reads no vector out of range, each
    result that an [execute] call returned is printed, with its first
    parameter and its energy, in the order of the calls and also when it
    then fails the check; and [main] prints no other statement of that
    form. *)
Theorem main_prints_every_result :
  forall (L : Library) (s : lib_state L),
    outcome (run L main s) <> Undefined ->
    filter is_result_line (output (trace (run L main s))) =
      flat_map result_line (execute_results (trace (run L main s))) /\
    forallb (fun r => nonempty (snd r))
            (execute_results (trace (run L main s))) = true.
Proof.
  intros L s. unfold output, execute_results.
  main_lines L s; quiet_tail; intros Hdefined;
    try (elim Hdefined; reflexivity); try (split; reflexivity).
  rewrite Hlines, no_result_line_in_loop. split; reflexivity.
Qed.

(** The run whose second energy is off: both results are printed. *)
Lemma main_prints_every_result_witness :
  filter is_result_line
         (output (trace (run scripted main (0%nat, second_off)))) =
    flat_map result_line
             (execute_results (trace (run scripted main (0%nat, second_off)))) /\
  forallb (fun r => nonempty (snd r))
          (execute_results (trace (run scripted main (0%nat, second_off)))) =
    true.
Proof.
  apply (main_prints_every_result scripted (0%nat, second_off)).
  vm_compute. discriminate.
Defined.

(** X8: what a normal run of [main] prints: the results of its three
    solvers, the heading, and the listing of the pairs that
    [get_unique_energies] returned. The answer of [get_unique_parameters]
    is asked for but nothing of it is printed. *)
Theorem main_normal_output :
  forall (L : Library) (s : lib_state L),
    outcome (run L main s) = Returned tt ->
    exists r1 r2 r3 all_params all_energies_and_params,
      execute_results (trace (run L main s)) = [r1; r2; r3] /\
      parameter_reports (trace (run L main s)) = [all_params] /\
      energy_reports (trace (run L main s)) = [all_energies_and_params] /\
      output (trace (run L main s)) =
        result_line r1 ++ result_line r2 ++ result_line r3 ++
        heading :: energy_lines all_energies_and_params.
Proof.
  intros L s.
  unfold output, execute_results, parameter_reports, energy_reports.
  main_lines L s; quiet_tail; intros Hout; try discriminate Hout.
  rewrite Hlines. do 5 eexists. repeat split.
Qed.

Lemma main_normal_output_witness :
  exists r1 r2 r3 all_params all_energies_and_params,
    execute_results (trace (run sweep_qcor main Hybrid.initial)) =
      [r1; r2; r3] /\
    parameter_reports (trace (run sweep_qcor main Hybrid.initial)) =
      [all_params] /\
    energy_reports (trace (run sweep_qcor main Hybrid.initial)) =
      [all_energies_and_params] /\
    output (trace (run sweep_qcor main Hybrid.initial)) =
      result_line r1 ++ result_line r2 ++ result_line r3 ++
      heading :: energy_lines all_energies_and_params.
Proof.
  apply (main_normal_output sweep_qcor Hybrid.initial).
  vm_compute. reflexivity.
Defined.

(** X9: the last loop of [main], on any list of pairs and against any
    library: it makes no library call and leaves the library as it was, it
    returns, and it prints, for each pair in order, one opening statement
    with the energy, one statement for each parameter, and one closing
    statement; in all, two statements for each pair and one for each
    parameter. *)
Theorem last_loop_prints_the_listing :
  forall (L : Library) (l : list (float * list float)) (s : lib_state L),
    run L (print_energies l) s =
      {| trace := map (fun items => EObs (Cout items)) (energy_lines l);
         outcome := Returned tt;
         final := s |} /\
    List.length (energy_lines l) =
      (2 * List.length l + List.length (List.concat (map snd l)))%nat.
Proof.
  intros L l s. split.
  - destruct (prints_print_energies L l s) as (Ht & Ho & Hf).
    destruct (run L (print_energies l) s) as [t o f]. cbn in *.
    subst. reflexivity.
  - induction l as [ | a l IH]; [reflexivity | ].
    rewrite energy_lines_cons. cbn [List.length map List.concat].
    rewrite !length_app, length_map. cbn [List.length]. rewrite IH. lia.
Qed.
